(** * Orbit camera (camera.py): a shallow embedding and its properties

    The program is one Python class, [Camera], holding spherical
    coordinates and two flags.  Its arithmetic is done partly on Python
    numbers and partly on numpy [float64] values and arrays.

    Numbers are idealised: a finite floating-point value is the real number
    it denotes, and the operations on finite values are exact (no rounding,
    no overflow); [cos], [sin], [tan] and [sqrt] are the real functions.
    Two things of IEEE arithmetic are kept, because the program can observe
    them.  First, numpy does not raise on a division by zero: it returns
    [inf] or [nan], and these propagate.  Second, [np.pi] is the [float64]
    nearest to the number pi, and that value lies below pi: it bounds the
    clamp on [phi], so it decides whether the camera can reach a pole.
    Python's own division does raise ([ZeroDivisionError]), and so does
    reading an attribute an event does not carry ([AttributeError]). *)

From Stdlib Require Import Reals Machin Lra Lia ZArith Bool List.
Import ListNotations.

Open Scope R_scope.

(** ** numpy scalars *)

Module NP.

(** A [float64]: a finite value, one of the two infinities, or not-a-number.
    Zero carries no sign here; a zero divisor counts as [+0.0], which is what
    [np.linalg.norm] returns for a zero vector. *)
Inductive float64 : Type :=
  | Fin (r : R)
  | PInf
  | NInf
  | NaN.

Definition is_finite (x : float64) : bool :=
  match x with Fin _ => true | _ => false end.

(** The infinity with the sign of [r]; [nan] when [r] is zero
    (the value of [0 * inf] and of [0 / 0]). *)
Definition signed_inf (r : R) : float64 :=
  if Req_EM_T r 0 then NaN
  else if Rlt_dec 0 r then PInf else NInf.

Definition neg (x : float64) : float64 :=
  match x with
  | Fin r => Fin (- r)
  | PInf => NInf
  | NInf => PInf
  | NaN => NaN
  end.

Definition add (x y : float64) : float64 :=
  match x, y with
  | NaN, _ | _, NaN => NaN
  | Fin a, Fin b => Fin (a + b)
  | PInf, NInf | NInf, PInf => NaN
  | PInf, _ | _, PInf => PInf
  | NInf, _ | _, NInf => NInf
  end.

Definition sub (x y : float64) : float64 := add x (neg y).

Definition mul (x y : float64) : float64 :=
  match x, y with
  | NaN, _ | _, NaN => NaN
  | Fin a, Fin b => Fin (a * b)
  | Fin a, PInf | PInf, Fin a => signed_inf a
  | Fin a, NInf | NInf, Fin a => signed_inf (- a)
  | PInf, PInf | NInf, NInf => PInf
  | PInf, NInf | NInf, PInf => NInf
  end.

(** Division never raises: [x / 0] is an infinity, [0 / 0] is [nan]. *)
Definition div (x y : float64) : float64 :=
  match x, y with
  | NaN, _ | _, NaN => NaN
  | Fin a, Fin b => if Req_EM_T b 0 then signed_inf a else Fin (a / b)
  | Fin _, (PInf | NInf) => Fin 0
  | PInf, Fin b => if Rlt_dec b 0 then NInf else PInf
  | NInf, Fin b => if Rlt_dec b 0 then PInf else NInf
  | (PInf | NInf), (PInf | NInf) => NaN
  end.

Definition sqrt (x : float64) : float64 :=
  match x with
  | Fin r => if Rlt_dec r 0 then NaN else Fin (R_sqrt.sqrt r)
  | PInf => PInf
  | NInf | NaN => NaN
  end.

(** [np.cos], [np.sin], [np.tan] at a finite Python number.  [np.tan] of a
    finite [float64] is always finite (no [float64] is an odd multiple of
    [pi/2]); the value is the real tangent wherever that is defined. *)
Definition cos (x : R) : float64 := Fin (Rtrigo_def.cos x).
Definition sin (x : R) : float64 := Fin (Rtrigo_def.sin x).
Definition tan (x : R) : float64 := Fin (Rtrigo1.tan x).

(** [np.pi]: the [float64] [0x400921FB54442D18], exactly
    [884279719003555 / 2^48 = 3.141592653589793115997963...]. *)
Definition pi : R := 884279719003555 / 281474976710656.

(** [np.radians] *)
Definition radians (deg : R) : R := deg * pi / 180.

(** *** Arrays of three [float64] *)

Record array3 : Type := mk3 { x0 : float64; x1 : float64; x2 : float64 }.

(** [np.array([x, y, z])] of three finite numbers *)
Definition of_reals (v : R * R * R) : array3 :=
  let '(a, b, c) := v in mk3 (Fin a) (Fin b) (Fin c).

Definition all_nan : array3 := mk3 NaN NaN NaN.

Definition all_finite (v : array3) : bool :=
  is_finite (x0 v) && is_finite (x1 v) && is_finite (x2 v).

(** [-v] *)
Definition vneg (v : array3) : array3 :=
  mk3 (neg (x0 v)) (neg (x1 v)) (neg (x2 v)).

(** [v + w] *)
Definition vadd (v w : array3) : array3 :=
  mk3 (add (x0 v) (x0 w)) (add (x1 v) (x1 w)) (add (x2 v) (x2 w)).

(** [s * v] *)
Definition vscale (s : float64) (v : array3) : array3 :=
  mk3 (mul s (x0 v)) (mul s (x1 v)) (mul s (x2 v)).

(** [v / s] *)
Definition vdiv (v : array3) (s : float64) : array3 :=
  mk3 (div (x0 v) s) (div (x1 v) s) (div (x2 v) s).

(** [np.dot(v, w)] *)
Definition dot (v w : array3) : float64 :=
  add (add (mul (x0 v) (x0 w)) (mul (x1 v) (x1 w))) (mul (x2 v) (x2 w)).

(** [np.linalg.norm(v)]: the square root of the sum of the squares. *)
Definition norm (v : array3) : float64 := sqrt (dot v v).

(** [np.cross(a, b)] for two arrays of length three. *)
Definition cross (a b : array3) : array3 :=
  mk3 (sub (mul (x1 a) (x2 b)) (mul (x2 a) (x1 b)))
      (sub (mul (x2 a) (x0 b)) (mul (x0 a) (x2 b)))
      (sub (mul (x0 a) (x1 b)) (mul (x1 a) (x0 b))).

End NP.

Import NP.

(** ** Python exceptions *)

Inductive exn : Type :=
  | AttributeError
  | ZeroDivisionError.

Inductive result (A : Type) : Type :=
  | Ok (a : A)
  | Raise (e : exn).

Arguments Ok {A} a.
Arguments Raise {A} e.

(** Python's two-argument [max] and [min]: the first argument wins a tie. *)
Definition py_max (a b : R) : R := if Rlt_dec a b then b else a.
Definition py_min (a b : R) : R := if Rlt_dec b a then b else a.

(** ** pygame events *)

(** An event carries a type code and the attributes of its kind; an
    attribute that is absent raises [AttributeError] when read. *)
Record Event : Type := mkEvent {
  type : Z;
  button : option Z;
  rel : option (Z * Z)
}.

(** The type codes of pygame 2. *)
Definition MOUSEMOTION : Z := 1024.
Definition MOUSEBUTTONDOWN : Z := 1025.
Definition MOUSEBUTTONUP : Z := 1026.

(** ** The camera *)

Record Camera : Type := mkCamera {
  radius : R;
  theta : R;
  phi : R;
  fov : R;
  mouse_sensitivity : R;
  dragging : bool;
  _dirty : bool
}.

(** [Camera.__init__].  The decimal [0.005] stands for its [float64]; no
    property below tells the two apart. *)
Definition init : Camera :=
  {| radius := 50;
     theta := 0;
     phi := 0;
     fov := radians 50;
     mouse_sensitivity := 0.005;
     dragging := false;
     _dirty := true |}.

Definition set_dragging (self : Camera) (b : bool) : Camera :=
  {| radius := radius self; theta := theta self; phi := phi self;
     fov := fov self; mouse_sensitivity := mouse_sensitivity self;
     dragging := b; _dirty := _dirty self |}.

Definition set_dirty (self : Camera) (b : bool) : Camera :=
  {| radius := radius self; theta := theta self; phi := phi self;
     fov := fov self; mouse_sensitivity := mouse_sensitivity self;
     dragging := dragging self; _dirty := b |}.

Definition set_theta (self : Camera) (t : R) : Camera :=
  {| radius := radius self; theta := t; phi := phi self;
     fov := fov self; mouse_sensitivity := mouse_sensitivity self;
     dragging := dragging self; _dirty := _dirty self |}.

Definition set_phi (self : Camera) (p : R) : Camera :=
  {| radius := radius self; theta := theta self; phi := p;
     fov := fov self; mouse_sensitivity := mouse_sensitivity self;
     dragging := dragging self; _dirty := _dirty self |}.

(** [Camera.handle_event].  Each attribute read comes before every
    assignment of its branch, so a raised exception leaves the camera as it
    was. *)
Definition handle_event (self : Camera) (event : Event) : result Camera :=
  if (type event =? MOUSEBUTTONDOWN)%Z then
    match button event with
    | None => Raise AttributeError
    | Some b => if (b =? 1)%Z then Ok (set_dragging self true) else Ok self
    end
  else if (type event =? MOUSEBUTTONUP)%Z then
    match button event with
    | None => Raise AttributeError
    | Some b => if (b =? 1)%Z then Ok (set_dragging self false) else Ok self
    end
  else if (type event =? MOUSEMOTION)%Z && dragging self then
    match rel event with
    | None => Raise AttributeError
    | Some (dx, dy) =>
        let self := set_theta self (theta self + IZR dx * mouse_sensitivity self) in
        let self := set_phi self (phi self - IZR dy * mouse_sensitivity self) in
        let self := set_phi self (py_max (- NP.pi / 2) (py_min (NP.pi / 2) (phi self))) in
        Ok (set_dirty self true)
    end
  else Ok self.

(** [Camera.update]: [pass]. *)
Definition update (self : Camera) (dt : R) : Camera := self.

(** [Camera.position] *)
Definition position (self : Camera) : array3 :=
  let x := mul (mul (Fin (radius self)) (NP.cos (phi self))) (NP.cos (theta self)) in
  let y := mul (Fin (radius self)) (NP.sin (phi self)) in
  let z := mul (mul (Fin (radius self)) (NP.cos (phi self))) (NP.sin (theta self)) in
  mk3 x y z.

Definition world_up : array3 := mk3 (Fin 0) (Fin 1) (Fin 0).

(** The [forward] of [basis_vectors], and its [right] before the division
    by its norm. *)
Definition forward_of (self : Camera) : array3 :=
  let pos := position self in
  vdiv (vneg pos) (norm pos).

Definition right_unnormalized (self : Camera) : array3 :=
  cross world_up (forward_of self).

(** [Camera.basis_vectors]: [(forward, right, up)]. *)
Definition basis_vectors (self : Camera) : array3 * array3 * array3 :=
  let pos := position self in
  let forward := vdiv (vneg pos) (norm pos) in
  let right := cross world_up forward in
  let right := vdiv right (norm right) in
  let up := cross forward right in
  (forward, right, up).

(** The direction [ray_direction] normalises, given the two camera-space
    offsets. *)
Definition dir_world_of (self : Camera) (x_cam y_cam : float64) : array3 :=
  let '(forward, right', up) := basis_vectors self in
  let z_cam := Fin 1.0 in
  vadd (vadd (vscale x_cam right') (vscale y_cam up)) (vscale z_cam forward).

(** [Camera.ray_direction].  The pixel coordinates are Python numbers, the
    image sizes Python integers; dividing by a zero size raises. *)
Definition ray_direction (self : Camera) (px py : R) (img_w img_h : Z)
  : result array3 :=
  let '(forward, right', up) := basis_vectors self in
  if (img_w =? 0)%Z then Raise ZeroDivisionError else
  let x_ndc := ((px + 0.5) / IZR img_w) * 2.0 - 1.0 in
  if (img_h =? 0)%Z then Raise ZeroDivisionError else
  let y_ndc := 1.0 - ((py + 0.5) / IZR img_h) * 2.0 in
  let aspect := IZR img_w / IZR img_h in
  let tan_half_fov := NP.tan (fov self / 2.0) in
  let x_cam := mul (Fin (x_ndc * aspect)) tan_half_fov in
  let y_cam := mul (Fin y_ndc) tan_half_fov in
  let z_cam := Fin 1.0 in
  let dir_world :=
    vadd (vadd (vscale x_cam right') (vscale y_cam up)) (vscale z_cam forward) in
  let dir_world := vdiv dir_world (norm dir_world) in
  Ok dir_world.

(** [Camera.consume_dirty]: the flag as it was, and the camera with the flag
    reset. *)
Definition consume_dirty (self : Camera) : bool * Camera :=
  let was_dirty := _dirty self in
  let self := set_dirty self false in
  (was_dirty, self).

(** ** Sequences of calls *)

(** What a client does with a camera between its construction and now.
    [draw] is left out: it reads [position] and writes to the screen only. *)
Inductive op : Type :=
  | HandleEvent (event : Event)
  | Update (dt : R)
  | ConsumeDirty
  | Position
  | BasisVectors
  | RayDirection (px py : R) (img_w img_h : Z).

(** The camera after one call.  An exception raised by [handle_event] is the
    caller's to catch; the camera is then as it was. *)
Definition step (self : Camera) (o : op) : Camera :=
  match o with
  | HandleEvent event =>
      match handle_event self event with
      | Ok self' => self'
      | Raise _ => self
      end
  | Update dt => update self dt
  | ConsumeDirty => snd (consume_dirty self)
  | Position | BasisVectors | RayDirection _ _ _ _ => self
  end.

Definition run (self : Camera) (ops : list op) : Camera :=
  fold_left step ops self.

(** The three events the input source delivers. *)
Definition button_down (b : Z) : Event := mkEvent MOUSEBUTTONDOWN (Some b) None.
Definition button_up (b : Z) : Event := mkEvent MOUSEBUTTONUP (Some b) None.
Definition motion (dx dy : Z) : Event := mkEvent MOUSEMOTION None (Some (dx, dy)).

(** *** The history a client can keep beside the camera *)

(** [orientation_mutated self o]: the call [o] on [self] runs the assignments
    to [theta] and [phi] of [handle_event]. *)
Definition orientation_mutated (self : Camera) (o : op) : bool :=
  match o with
  | HandleEvent event =>
      negb (type event =? MOUSEBUTTONDOWN)%Z
      && negb (type event =? MOUSEBUTTONUP)%Z
      && (type event =? MOUSEMOTION)%Z && dragging self
      && match rel event with Some _ => true | None => false end
  | _ => false
  end.

Record History : Type := mkHistory {
  cam : Camera;
  (** [(theta, phi)] when [consume_dirty] was last called, or at construction *)
  last_read : R * R;
  (** [consume_dirty] has been called *)
  consumed : bool;
  (** [theta] and [phi] were assigned since [last_read] was taken *)
  mutated : bool
}.

Definition orientation (self : Camera) : R * R := (theta self, phi self).

Definition start : History :=
  mkHistory init (orientation init) false false.

Definition record_step (h : History) (o : op) : History :=
  let self := step (cam h) o in
  match o with
  | ConsumeDirty => mkHistory self (orientation self) true false
  | _ =>
      mkHistory self (last_read h) (consumed h)
                (mutated h || orientation_mutated (cam h) o)
  end.

Definition record (ops : list op) : History :=
  fold_left record_step ops start.

(** What the history knows about the flag. *)
Definition history_inv (h : History) : Prop :=
  _dirty (cam h) = negb (consumed h) || mutated h
  /\ (mutated h = false -> orientation (cam h) = last_read h).

(** ** Exact vectors *)

(** Vectors of three reals, for stating what the arrays hold. *)
Module RV.

Definition vec : Type := (R * R * R)%type.

Definition add (v w : vec) : vec :=
  let '(a, b, c) := v in let '(d, e, f) := w in (a + d, b + e, c + f).

Definition scale (s : R) (v : vec) : vec :=
  let '(a, b, c) := v in (s * a, s * b, s * c).

Definition opp (v : vec) : vec := scale (-1) v.

Definition dot (v w : vec) : R :=
  let '(a, b, c) := v in let '(d, e, f) := w in a * d + b * e + c * f.

Definition cross (v w : vec) : vec :=
  let '(a, b, c) := v in let '(d, e, f) := w in
  (b * f - c * e, c * d - a * f, a * e - b * d).

Definition norm (v : vec) : R := R_sqrt.sqrt (dot v v).

Definition normalize (v : vec) : vec := scale (/ norm v) v.

End RV.

(** The frame of a camera in closed form. *)
Definition forward_exact (self : Camera) : RV.vec :=
  (- (Rtrigo_def.cos (phi self) * Rtrigo_def.cos (theta self)),
   - Rtrigo_def.sin (phi self),
   - (Rtrigo_def.cos (phi self) * Rtrigo_def.sin (theta self))).

Definition right_exact (self : Camera) : RV.vec :=
  (- Rtrigo_def.sin (theta self), 0, Rtrigo_def.cos (theta self)).

Definition up_exact (self : Camera) : RV.vec :=
  (- (Rtrigo_def.sin (phi self) * Rtrigo_def.cos (theta self)),
   Rtrigo_def.cos (phi self),
   - (Rtrigo_def.sin (phi self) * Rtrigo_def.sin (theta self))).

(** The direction before normalisation in closed form, for finite
    offsets. *)
Definition dir_exact (self : Camera) (x y : R) : RV.vec :=
  RV.add (RV.add (RV.scale x (right_exact self)) (RV.scale y (up_exact self)))
         (RV.scale 1 (forward_exact self)).

(** The pixel-to-ray algorithm as the specification words it, on exact
    vectors: the pixel centre in normalised device coordinates, the
    camera-space offsets, the combination with the frame and the
    normalisation. *)
Definition spec_ray_direction
  (forward right' up : RV.vec) (fieldOfView px py imgW imgH : R) : RV.vec :=
  let xNdc := ((px + 0.5) / imgW) * 2 - 1 in
  let yNdc := 1 - ((py + 0.5) / imgH) * 2 in
  let aspect := imgW / imgH in
  let tanHalfFov := Rtrigo1.tan (fieldOfView / 2) in
  let xCam := xNdc * aspect * tanHalfFov in
  let yCam := yNdc * tanHalfFov in
  let zCam := 1 in
  let dir := RV.add (RV.add (RV.scale xCam right') (RV.scale yCam up))
                    (RV.scale zCam forward) in
  RV.normalize dir.

(** ** Predicates on states and frames *)

(** A state the data model allows: a positive radius, [phi] within the
    clamp, whose bounds are [-np.pi/2] and [np.pi/2]. *)
Definition valid_state (self : Camera) : Prop :=
  0 < radius self /\ - NP.pi / 2 <= phi self <= NP.pi / 2.

(** A state away from the two poles [phi = -pi/2] and [phi = pi/2]. *)
Definition regular_state (self : Camera) : Prop :=
  0 < radius self /\ - PI / 2 < phi self < PI / 2.

(** Three arrays that are pairwise orthogonal and of unit norm. *)
Definition orthonormal (frame : array3 * array3 * array3) : Prop :=
  let '(forward, right', up) := frame in
  dot forward right' = Fin 0 /\ dot forward up = Fin 0 /\ dot right' up = Fin 0 /\
  norm forward = Fin 1 /\ norm right' = Fin 1 /\ norm up = Fin 1.

(** The camera-space offsets [(x_cam, y_cam)] of [ray_direction], for image
    sizes that are not zero. *)
Definition camera_offsets (self : Camera) (px py : R) (img_w img_h : Z)
  : float64 * float64 :=
  let x_ndc := ((px + 0.5) / IZR img_w) * 2.0 - 1.0 in
  let y_ndc := 1.0 - ((py + 0.5) / IZR img_h) * 2.0 in
  let aspect := IZR img_w / IZR img_h in
  let tan_half_fov := NP.tan (fov self / 2.0) in
  (mul (Fin (x_ndc * aspect)) tan_half_fov, mul (Fin y_ndc) tan_half_fov).

(** The state in which only [radius] differs. *)
Definition with_radius (self : Camera) (r : R) : Camera :=
  {| radius := r; theta := theta self; phi := phi self;
     fov := fov self; mouse_sensitivity := mouse_sensitivity self;
     dragging := dragging self; _dirty := _dirty self |}.

(** ** Particular states *)

(** Press the primary button, then drag upwards by 800 pixels: [phi] goes
    to the upper bound of the clamp. *)
Definition drag_to_top : list op :=
  [HandleEvent (button_down 1); HandleEvent (motion 0 (-800))].

(** The same drag downwards, to the lower bound. *)
Definition drag_to_bottom : list op :=
  [HandleEvent (button_down 1); HandleEvent (motion 0 800)].

Definition top_state : Camera := run init drag_to_top.

(** A camera at the orbit origin. *)
Definition origin_state : Camera := with_radius init 0.

(** Read the flag, press the primary button, then a pointer-move that
    reports no motion. *)
Definition still_drag : list op :=
  [ConsumeDirty; HandleEvent (button_down 1); HandleEvent (motion 0 0)].

(** Drag up to the bound of the clamp, read the flag, then drag up
    again. *)
Definition clamped_drag : list op :=
  [HandleEvent (button_down 1); HandleEvent (motion 0 (-800));
   ConsumeDirty; HandleEvent (motion 0 (-800))].

(** ** Predicates on sequences of calls *)

(** No call of the sequence is [consume_dirty]. *)
Definition no_consume (ops : list op) : bool :=
  forallb (fun o => match o with ConsumeDirty => false | _ => true end) ops.

(** The call delivers a press of the primary button. *)
Definition is_primary_press (o : op) : bool :=
  match o with
  | HandleEvent event =>
      (type event =? MOUSEBUTTONDOWN)%Z
      && match button event with Some b => (b =? 1)%Z | None => false end
  | _ => false
  end.

Definition no_primary_press (ops : list op) : bool :=
  forallb (fun o => negb (is_primary_press o)) ops.

(** Every call of the sequence is [update] or a query. *)
Definition only_reads (ops : list op) : bool :=
  forallb (fun o => match o with
                    | Update _ | Position | BasisVectors | RayDirection _ _ _ _ => true
                    | _ => false
                    end) ops.

(** ** Arithmetic on finite values *)

Section FiniteArithmetic.

Lemma div_fin (a b : R) : b <> 0 -> div (Fin a) (Fin b) = Fin (a / b).
Proof.
  intros Hb. unfold div. destruct (Req_EM_T b 0) as [E | _]; [contradiction | reflexivity].
Qed.

Lemma div_zero_zero : div (Fin 0) (Fin 0) = NaN.
Proof.
  unfold div, signed_inf.
  destruct (Req_EM_T 0 0) as [_ | N]; [reflexivity | contradiction N; reflexivity].
Qed.

Lemma sqrt_fin (a : R) : 0 <= a -> NP.sqrt (Fin a) = Fin (R_sqrt.sqrt a).
Proof.
  intros Ha. unfold NP.sqrt. destruct (Rlt_dec a 0) as [L | _]; [lra | reflexivity].
Qed.

Lemma dot_self_nonneg (v : RV.vec) : 0 <= RV.dot v v.
Proof. destruct v as [[a b] c]. unfold RV.dot. nra. Qed.

Lemma dot_of_reals (v w : RV.vec) :
  dot (of_reals v) (of_reals w) = Fin (RV.dot v w).
Proof. destruct v as [[a b] c], w as [[d e] f]. reflexivity. Qed.

Lemma norm_of_reals (v : RV.vec) : norm (of_reals v) = Fin (RV.norm v).
Proof.
  unfold norm. rewrite dot_of_reals. apply sqrt_fin, dot_self_nonneg.
Qed.

Lemma vadd_of_reals (v w : RV.vec) :
  vadd (of_reals v) (of_reals w) = of_reals (RV.add v w).
Proof. destruct v as [[a b] c], w as [[d e] f]. reflexivity. Qed.

Lemma vscale_of_reals (s : R) (v : RV.vec) :
  vscale (Fin s) (of_reals v) = of_reals (RV.scale s v).
Proof. destruct v as [[a b] c]. reflexivity. Qed.

Lemma cross_of_reals (v w : RV.vec) :
  cross (of_reals v) (of_reals w) = of_reals (RV.cross v w).
Proof. destruct v as [[a b] c], w as [[d e] f]. reflexivity. Qed.

Lemma vdiv_of_reals (v : RV.vec) (s : R) :
  s <> 0 -> vdiv (of_reals v) (Fin s) = of_reals (RV.scale (/ s) v).
Proof.
  intros Hs. destruct v as [[a b] c]. unfold vdiv, of_reals; cbn [x0 x1 x2].
  rewrite !div_fin by assumption. unfold RV.scale, Rdiv.
  rewrite (Rmult_comm a), (Rmult_comm b), (Rmult_comm c). reflexivity.
Qed.

Lemma vneg_of_reals (v : RV.vec) :
  vneg (of_reals v) = of_reals (RV.opp v).
Proof.
  destruct v as [[a b] c]. unfold vneg, of_reals, RV.opp, RV.scale; cbn [x0 x1 x2 neg].
  f_equal; f_equal; ring.
Qed.

Lemma all_finite_of_reals (v : RV.vec) : all_finite (of_reals v) = true.
Proof. destruct v as [[a b] c]. reflexivity. Qed.

Lemma vec_ext (a b c d e f : R) : a = d -> b = e -> c = f -> (a, b, c) = (d, e, f).
Proof. intros -> -> ->. reflexivity. Qed.

Lemma norm_scale (s : R) (v : RV.vec) :
  RV.norm (RV.scale s v) = Rabs s * RV.norm v.
Proof.
  destruct v as [[a b] c]. unfold RV.norm, RV.scale, RV.dot.
  replace (s * a * (s * a) + s * b * (s * b) + s * c * (s * c))
    with (Rsqr s * (a * a + b * b + c * c)) by (unfold Rsqr; ring).
  rewrite sqrt_mult_alt by apply Rle_0_sqr.
  rewrite sqrt_Rsqr_abs. reflexivity.
Qed.

(** A non-zero vector divided by its norm has norm one. *)
Lemma norm_normalize (v : RV.vec) :
  RV.norm v <> 0 -> RV.norm (RV.normalize v) = 1.
Proof.
  intros Hn. unfold RV.normalize. rewrite norm_scale.
  assert (Hpos : 0 < RV.norm v).
  { destruct (sqrt_pos (RV.dot v v)) as [L | E]; [exact L | ].
    exfalso. apply Hn. unfold RV.norm. symmetry. exact E. }
  rewrite Rabs_right.
  - field. exact Hn.
  - left. apply Rinv_0_lt_compat. exact Hpos.
Qed.

End FiniteArithmetic.

(** ** The frame away from the poles *)

Section Frame.

Variable self : Camera.

Let r := radius self.
Let cp := Rtrigo_def.cos (phi self).
Let sp := Rtrigo_def.sin (phi self).
Let ct := Rtrigo_def.cos (theta self).
Let st := Rtrigo_def.sin (theta self).

Lemma circle_phi : sp * sp + cp * cp = 1.
Proof. generalize (sin2_cos2 (phi self)). unfold Rsqr, sp, cp. tauto. Qed.

Lemma circle_theta : st * st + ct * ct = 1.
Proof. generalize (sin2_cos2 (theta self)). unfold Rsqr, st, ct. tauto. Qed.

Lemma position_exact :
  position self = of_reals (r * cp * ct, r * sp, r * cp * st).
Proof. reflexivity. Qed.

Lemma position_norm_sq :
  RV.dot (r * cp * ct, r * sp, r * cp * st) (r * cp * ct, r * sp, r * cp * st)
  = r * r.
Proof.
  unfold RV.dot.
  replace (r * cp * ct * (r * cp * ct) + r * sp * (r * sp) + r * cp * st * (r * cp * st))
    with (r * r * (cp * cp * (st * st + ct * ct) + sp * sp)) by ring.
  rewrite circle_theta, Rmult_1_r, (Rplus_comm (cp * cp)), circle_phi. ring.
Qed.

Lemma position_norm : norm (position self) = Fin (Rabs r).
Proof.
  rewrite position_exact, norm_of_reals. unfold RV.norm.
  rewrite position_norm_sq. f_equal.
  change (r * r) with (Rsqr r). apply sqrt_Rsqr_abs.
Qed.

Lemma forward_regular : 0 < r -> forward_of self = of_reals (forward_exact self).
Proof.
  intros Hr. unfold forward_of. rewrite position_norm, Rabs_right by lra.
  rewrite position_exact, vneg_of_reals, vdiv_of_reals by lra.
  f_equal. unfold RV.opp, RV.scale, forward_exact. fold cp sp ct st.
  apply vec_ext; field; lra.
Qed.

Lemma right_unnormalized_regular :
  0 < r ->
  right_unnormalized self = of_reals (RV.scale cp (right_exact self)).
Proof.
  intros Hr. unfold right_unnormalized. rewrite forward_regular by exact Hr.
  change world_up with (of_reals (0, 1, 0)). rewrite cross_of_reals.
  f_equal. unfold RV.cross, forward_exact, right_exact, RV.scale. fold cp sp ct st.
  apply vec_ext; ring.
Qed.

Lemma right_exact_norm : RV.norm (right_exact self) = 1.
Proof.
  unfold RV.norm, right_exact, RV.dot. fold ct st.
  replace (- st * - st + 0 * 0 + ct * ct) with (st * st + ct * ct) by ring.
  rewrite circle_theta. apply sqrt_1.
Qed.

Lemma right_unnormalized_norm :
  0 < r -> norm (right_unnormalized self) = Fin (Rabs cp).
Proof.
  intros Hr. rewrite right_unnormalized_regular, norm_of_reals by exact Hr.
  rewrite norm_scale, right_exact_norm, Rmult_1_r. reflexivity.
Qed.

Lemma basis_vectors_unfold :
  basis_vectors self =
  (forward_of self,
   vdiv (right_unnormalized self) (norm (right_unnormalized self)),
   cross (forward_of self)
         (vdiv (right_unnormalized self) (norm (right_unnormalized self)))).
Proof. reflexivity. Qed.

Lemma basis_vectors_regular :
  0 < r -> 0 < cp ->
  basis_vectors self =
  (of_reals (forward_exact self), of_reals (right_exact self), of_reals (up_exact self)).
Proof.
  intros Hr Hc. rewrite basis_vectors_unfold.
  rewrite right_unnormalized_norm, Rabs_right by lra.
  rewrite right_unnormalized_regular, vdiv_of_reals by lra.
  assert (E : RV.scale (/ cp) (RV.scale cp (right_exact self)) = right_exact self).
  { unfold RV.scale, right_exact. apply vec_ext; field; lra. }
  rewrite E, forward_regular, cross_of_reals by exact Hr.
  do 2 f_equal. unfold RV.cross, forward_exact, right_exact, up_exact.
  fold cp sp ct st. apply vec_ext; try ring.
  replace (- (cp * st) * - st - - (cp * ct) * ct) with (cp * (st * st + ct * ct)) by ring.
  rewrite circle_theta. ring.
Qed.

End Frame.

(** ** The exact frame is orthonormal *)

Section ExactFrame.

Variable self : Camera.

Let cp := Rtrigo_def.cos (phi self).
Let sp := Rtrigo_def.sin (phi self).
Let ct := Rtrigo_def.cos (theta self).
Let st := Rtrigo_def.sin (theta self).

Lemma forward_right_exact : RV.dot (forward_exact self) (right_exact self) = 0.
Proof. unfold RV.dot, forward_exact, right_exact. ring. Qed.

Lemma right_up_exact : RV.dot (right_exact self) (up_exact self) = 0.
Proof. unfold RV.dot, right_exact, up_exact. ring. Qed.

Lemma forward_up_exact : RV.dot (forward_exact self) (up_exact self) = 0.
Proof.
  unfold RV.dot, forward_exact, up_exact. fold cp sp ct st.
  replace (- (cp * ct) * - (sp * ct) + - sp * cp + - (cp * st) * - (sp * st))
    with (sp * cp * ((st * st + ct * ct) - 1)) by ring.
  unfold st, ct. rewrite circle_theta. ring.
Qed.

Lemma forward_exact_sq : RV.dot (forward_exact self) (forward_exact self) = 1.
Proof.
  unfold RV.dot, forward_exact. fold cp sp ct st.
  replace (- (cp * ct) * - (cp * ct) + - sp * - sp + - (cp * st) * - (cp * st))
    with (cp * cp * (st * st + ct * ct) + sp * sp) by ring.
  unfold st, ct, sp, cp. rewrite circle_theta, Rmult_1_r, Rplus_comm.
  apply circle_phi.
Qed.

Lemma right_exact_sq : RV.dot (right_exact self) (right_exact self) = 1.
Proof.
  unfold RV.dot, right_exact. fold ct st.
  replace (- st * - st + 0 * 0 + ct * ct) with (st * st + ct * ct) by ring.
  apply circle_theta.
Qed.

Lemma up_exact_sq : RV.dot (up_exact self) (up_exact self) = 1.
Proof.
  unfold RV.dot, up_exact. fold cp sp ct st.
  replace (- (sp * ct) * - (sp * ct) + cp * cp + - (sp * st) * - (sp * st))
    with (sp * sp * (st * st + ct * ct) + cp * cp) by ring.
  unfold st, ct, sp, cp. rewrite circle_theta, Rmult_1_r.
  apply circle_phi.
Qed.

Lemma forward_exact_norm : RV.norm (forward_exact self) = 1.
Proof. unfold RV.norm. rewrite forward_exact_sq. apply sqrt_1. Qed.

Lemma up_exact_norm : RV.norm (up_exact self) = 1.
Proof. unfold RV.norm. rewrite up_exact_sq. apply sqrt_1. Qed.

Lemma dir_exact_sq (x y : R) :
  RV.dot (dir_exact self x y) (dir_exact self x y) = x * x + y * y + 1.
Proof.
  generalize forward_right_exact right_up_exact forward_up_exact
             forward_exact_sq right_exact_sq up_exact_sq.
  unfold dir_exact.
  destruct (forward_exact self) as [[f0 f1] f2].
  destruct (right_exact self) as [[r0 r1] r2].
  destruct (up_exact self) as [[u0 u1] u2].
  unfold RV.dot, RV.add, RV.scale. intros Hfr Hru Hfu Hff Hrr Huu.
  replace ((x * r0 + y * u0 + 1 * f0) * (x * r0 + y * u0 + 1 * f0)
           + (x * r1 + y * u1 + 1 * f1) * (x * r1 + y * u1 + 1 * f1)
           + (x * r2 + y * u2 + 1 * f2) * (x * r2 + y * u2 + 1 * f2))
    with (x * x * (r0 * r0 + r1 * r1 + r2 * r2)
          + y * y * (u0 * u0 + u1 * u1 + u2 * u2)
          + (f0 * f0 + f1 * f1 + f2 * f2)
          + 2 * x * y * (r0 * u0 + r1 * u1 + r2 * u2)
          + 2 * x * (f0 * r0 + f1 * r1 + f2 * r2)
          + 2 * y * (f0 * u0 + f1 * u1 + f2 * u2)) by ring.
  rewrite Hfr, Hru, Hfu, Hff, Hrr, Huu. ring.
Qed.

Lemma dir_exact_norm_ge_1 (x y : R) : 1 <= RV.norm (dir_exact self x y).
Proof.
  unfold RV.norm. rewrite dir_exact_sq, <- sqrt_1 at 1.
  apply sqrt_le_1_alt. nra.
Qed.

End ExactFrame.

(** ** Queries in a regular state *)

Lemma cos_phi_pos (self : Camera) :
  regular_state self -> 0 < Rtrigo_def.cos (phi self).
Proof. intros [_ [Hlo Hhi]]. apply cos_gt_0; lra. Qed.

Lemma ray_direction_unfold (self : Camera) (px py : R) (img_w img_h : Z) :
  img_w <> 0%Z -> img_h <> 0%Z ->
  ray_direction self px py img_w img_h =
  let '(x_cam, y_cam) := camera_offsets self px py img_w img_h in
  Ok (vdiv (dir_world_of self x_cam y_cam) (norm (dir_world_of self x_cam y_cam))).
Proof.
  intros Hw Hh. unfold ray_direction, camera_offsets, dir_world_of.
  destruct (basis_vectors self) as [[f r] u].
  apply Z.eqb_neq in Hw. apply Z.eqb_neq in Hh. rewrite Hw, Hh. reflexivity.
Qed.

Lemma dir_world_regular (self : Camera) (x y : R) :
  regular_state self ->
  dir_world_of self (Fin x) (Fin y) = of_reals (dir_exact self x y).
Proof.
  intros Hreg. unfold dir_world_of. replace 1.0 with 1 by lra.
  rewrite basis_vectors_regular by (try apply cos_phi_pos; apply Hreg).
  rewrite !vscale_of_reals, !vadd_of_reals. reflexivity.
Qed.

Lemma dir_exact_norm_nonzero (self : Camera) (x y : R) :
  RV.norm (dir_exact self x y) <> 0.
Proof. generalize (dir_exact_norm_ge_1 self x y). lra. Qed.

Lemma camera_offsets_finite (self : Camera) (px py : R) (img_w img_h : Z) :
  camera_offsets self px py img_w img_h =
  (Fin ((((px + 0.5) / IZR img_w) * 2 - 1) * (IZR img_w / IZR img_h)
        * Rtrigo1.tan (fov self / 2)),
   Fin ((1 - ((py + 0.5) / IZR img_h) * 2) * Rtrigo1.tan (fov self / 2))).
Proof.
  unfold camera_offsets, NP.tan, mul.
  replace 2.0 with 2 by lra. replace 1.0 with 1 by lra. reflexivity.
Qed.

Lemma ray_direction_regular (self : Camera) (px py : R) (img_w img_h : Z) :
  regular_state self -> img_w <> 0%Z -> img_h <> 0%Z ->
  ray_direction self px py img_w img_h =
  Ok (of_reals (spec_ray_direction (forward_exact self) (right_exact self)
                  (up_exact self) (fov self) px py (IZR img_w) (IZR img_h))).
Proof.
  intros Hreg Hw Hh. rewrite ray_direction_unfold by assumption.
  rewrite camera_offsets_finite. cbv zeta iota beta.
  rewrite dir_world_regular, norm_of_reals by exact Hreg.
  rewrite vdiv_of_reals by apply dir_exact_norm_nonzero.
  reflexivity.
Qed.

(** ** Queries in a degenerate state *)

Lemma vdiv_zero_by_zero (v : RV.vec) (s : R) :
  v = (0, 0, 0) -> s = 0 -> vdiv (of_reals v) (Fin s) = all_nan.
Proof.
  intros -> ->. unfold vdiv, of_reals, all_nan; cbn [x0 x1 x2].
  rewrite div_zero_zero. reflexivity.
Qed.

Lemma cross_nan_r (v : RV.vec) : cross (of_reals v) all_nan = all_nan.
Proof. destruct v as [[a b] c]. reflexivity. Qed.

(** At a pole, where [cos(phi) = 0], the cross product with the world's up
    direction vanishes and its normalisation is [0 / 0].  No state within
    the clamp is a pole, since [np.pi/2] lies below pi/2; this is what the
    code would do at one. *)
Lemma basis_vectors_pole (self : Camera) :
  0 < radius self -> Rtrigo_def.cos (phi self) = 0 ->
  basis_vectors self = (of_reals (forward_exact self), all_nan, all_nan).
Proof.
  intros Hr Hc. rewrite basis_vectors_unfold.
  rewrite right_unnormalized_norm, right_unnormalized_regular by exact Hr.
  rewrite forward_regular by exact Hr.
  rewrite vdiv_zero_by_zero.
  - rewrite cross_nan_r. reflexivity.
  - rewrite Hc. unfold RV.scale, right_exact. apply vec_ext; ring.
  - rewrite Hc. apply Rabs_R0.
Qed.

(** At the origin the position is the zero vector, and already [forward] is
    [0 / 0]. *)
Lemma basis_vectors_origin (self : Camera) :
  radius self = 0 -> basis_vectors self = (all_nan, all_nan, all_nan).
Proof.
  intros Hr.
  assert (Hf : forward_of self = all_nan).
  { unfold forward_of. rewrite position_norm, position_exact, vneg_of_reals.
    apply vdiv_zero_by_zero.
    - rewrite Hr. unfold RV.opp, RV.scale. apply vec_ext; ring.
    - rewrite Hr. apply Rabs_R0. }
  rewrite basis_vectors_unfold. unfold right_unnormalized. rewrite Hf. reflexivity.
Qed.

Lemma ray_direction_nan (self : Camera) (px py : R) (img_w img_h : Z) :
  snd (fst (basis_vectors self)) = all_nan ->
  img_w <> 0%Z -> img_h <> 0%Z ->
  ray_direction self px py img_w img_h = Ok all_nan.
Proof.
  intros Hb Hw Hh. rewrite ray_direction_unfold by assumption.
  rewrite camera_offsets_finite. cbv zeta iota beta. unfold dir_world_of.
  destruct (basis_vectors self) as [[f r] u]. cbn [fst snd] in Hb. subst r.
  reflexivity.
Qed.

(** ** The clamp *)

Lemma np_pi_pos : 0 < NP.pi.
Proof. unfold NP.pi. lra. Qed.

Lemma np_pi_le_4 : NP.pi <= 4.
Proof. unfold NP.pi. lra. Qed.

(** [np.pi] lies below pi: sixteen terms of the series of
    [2 * atan (1/3) + atan (1/7)] already exceed [np.pi / 4]. *)
Lemma np_pi_lt_PI : NP.pi < PI.
Proof.
  destruct (PI_2_3_7_ineq 7) as [H _]. unfold NP.pi.
  cbv [sum_f_R0 tg_alt PI_2_3_7_tg Ratan_seq Nat.mul Nat.add pow INR] in H.
  lra.
Qed.

Lemma valid_regular (self : Camera) : valid_state self -> regular_state self.
Proof.
  generalize np_pi_lt_PI. unfold valid_state, regular_state. lra.
Qed.

Lemma py_max_Rmax (a b : R) : py_max a b = Rmax a b.
Proof.
  unfold py_max, Rmax. destruct (Rlt_dec a b), (Rle_dec a b); lra.
Qed.

Lemma py_min_Rmin (a b : R) : py_min a b = Rmin b a.
Proof.
  unfold py_min, Rmin. destruct (Rlt_dec b a), (Rle_dec b a); lra.
Qed.

Lemma clamp_range (x : R) :
  - NP.pi / 2 <= py_max (- NP.pi / 2) (py_min (NP.pi / 2) x) <= NP.pi / 2.
Proof.
  generalize np_pi_pos. intros Hpi. unfold py_max, py_min.
  destruct (Rlt_dec x (NP.pi / 2)); destruct (Rlt_dec (- NP.pi / 2) _); lra.
Qed.

Lemma clamp_inside (x : R) :
  - NP.pi / 2 <= x <= NP.pi / 2 -> py_max (- NP.pi / 2) (py_min (NP.pi / 2) x) = x.
Proof.
  intros Hx. unfold py_max, py_min.
  destruct (Rlt_dec x (NP.pi / 2)); destruct (Rlt_dec (- NP.pi / 2) _); lra.
Qed.

Lemma clamp_above (x : R) :
  NP.pi / 2 <= x -> py_max (- NP.pi / 2) (py_min (NP.pi / 2) x) = NP.pi / 2.
Proof.
  generalize np_pi_pos. intros Hpi Hx. unfold py_max, py_min.
  destruct (Rlt_dec x (NP.pi / 2)); destruct (Rlt_dec (- NP.pi / 2) _); lra.
Qed.

Lemma clamp_below (x : R) :
  x <= - NP.pi / 2 -> py_max (- NP.pi / 2) (py_min (NP.pi / 2) x) = - NP.pi / 2.
Proof.
  generalize np_pi_pos. intros Hpi Hx. unfold py_max, py_min.
  destruct (Rlt_dec x (NP.pi / 2)); destruct (Rlt_dec (- NP.pi / 2) _); lra.
Qed.

(** ** Event handling *)

Lemma handle_event_motion (self : Camera) (event : Event) (dx dy : Z) :
  type event = MOUSEMOTION -> rel event = Some (dx, dy) -> dragging self = true ->
  handle_event self event =
  Ok {| radius := radius self;
        theta := theta self + IZR dx * mouse_sensitivity self;
        phi := py_max (- NP.pi / 2)
                 (py_min (NP.pi / 2) (phi self - IZR dy * mouse_sensitivity self));
        fov := fov self;
        mouse_sensitivity := mouse_sensitivity self;
        dragging := dragging self;
        _dirty := true |}.
Proof.
  intros Ht Hrel Hd.
  assert (C : (type event =? MOUSEMOTION)%Z && dragging self = true)
    by (rewrite Ht, Hd; reflexivity).
  unfold handle_event. rewrite C, Hrel, Ht. reflexivity.
Qed.

Lemma handle_event_phi_range (self self' : Camera) (event : Event) :
  handle_event self event = Ok self' ->
  - NP.pi / 2 <= phi self <= NP.pi / 2 -> - NP.pi / 2 <= phi self' <= NP.pi / 2.
Proof.
  unfold handle_event. intros H Hphi.
  destruct (type event =? MOUSEBUTTONDOWN)%Z.
  { destruct (button event) as [b | ]; [ | discriminate].
    destruct (b =? 1)%Z; injection H as <-; exact Hphi. }
  destruct (type event =? MOUSEBUTTONUP)%Z.
  { destruct (button event) as [b | ]; [ | discriminate].
    destruct (b =? 1)%Z; injection H as <-; exact Hphi. }
  destruct ((type event =? MOUSEMOTION)%Z && dragging self).
  { destruct (rel event) as [[dx dy] | ]; [ | discriminate].
    injection H as <-. apply clamp_range. }
  injection H as <-. exact Hphi.
Qed.

Lemma step_phi_range (self : Camera) (o : op) :
  - NP.pi / 2 <= phi self <= NP.pi / 2 -> - NP.pi / 2 <= phi (step self o) <= NP.pi / 2.
Proof.
  intros Hphi. destruct o as [event | dt | | | | px py w h]; try exact Hphi.
  cbn [step]. destruct (handle_event self event) as [self' | e] eqn:E.
  - exact (handle_event_phi_range self self' event E Hphi).
  - exact Hphi.
Qed.

Lemma run_phi_range (ops : list op) (self : Camera) :
  - NP.pi / 2 <= phi self <= NP.pi / 2 -> - NP.pi / 2 <= phi (run self ops) <= NP.pi / 2.
Proof.
  revert self. induction ops as [ | o ops IH]; intros self Hphi.
  - exact Hphi.
  - cbn [run fold_left]. apply IH, step_phi_range, Hphi.
Qed.


(** ** The flag and the history *)

Lemma step_not_mutated (self : Camera) (o : op) :
  o <> ConsumeDirty -> orientation_mutated self o = false ->
  _dirty (step self o) = _dirty self /\ orientation (step self o) = orientation self.
Proof.
  intros Ho Hm. destruct o as [event | dt | | | | px py w h];
    try (split; reflexivity); try contradiction.
  revert Hm. unfold orientation_mutated, step, handle_event.
  destruct (type event =? MOUSEBUTTONDOWN)%Z.
  { intros _. destruct (button event) as [b | ]; [destruct (b =? 1)%Z | ]; split; reflexivity. }
  destruct (type event =? MOUSEBUTTONUP)%Z.
  { intros _. destruct (button event) as [b | ]; [destruct (b =? 1)%Z | ]; split; reflexivity. }
  destruct (type event =? MOUSEMOTION)%Z; [ | intros _; split; reflexivity].
  destruct (dragging self); [ | intros _; split; reflexivity].
  destruct (rel event) as [[dx dy] | ]; [discriminate | intros _; split; reflexivity].
Qed.

Lemma step_mutated (self : Camera) (o : op) :
  orientation_mutated self o = true -> _dirty (step self o) = true.
Proof.
  destruct o as [event | dt | | | | px py w h]; try discriminate.
  unfold orientation_mutated, step, handle_event.
  destruct (type event =? MOUSEBUTTONDOWN)%Z; [discriminate | ].
  destruct (type event =? MOUSEBUTTONUP)%Z; [discriminate | ].
  destruct (type event =? MOUSEMOTION)%Z; [ | discriminate].
  destruct (dragging self); [ | discriminate].
  destruct (rel event) as [[dx dy] | ]; [reflexivity | discriminate].
Qed.

Lemma history_inv_start : history_inv start.
Proof. split; reflexivity. Qed.

Lemma history_inv_step (h : History) (o : op) :
  history_inv h -> history_inv (record_step h o).
Proof.
  intros [Hd Ho].
  assert (Hc : o = ConsumeDirty \/ o <> ConsumeDirty).
  { destruct o; (left; reflexivity) || (right; discriminate). }
  destruct Hc as [-> | Hne].
  - split; reflexivity.
  - assert (E : record_step h o =
                mkHistory (step (cam h) o) (last_read h) (consumed h)
                          (mutated h || orientation_mutated (cam h) o)).
    { destruct o; try reflexivity. contradiction. }
    rewrite E. unfold history_inv. cbn [cam last_read consumed mutated].
    destruct (orientation_mutated (cam h) o) eqn:Hm.
    + split.
      * rewrite (step_mutated _ _ Hm), !orb_true_r. reflexivity.
      * rewrite orb_true_r. discriminate.
    + destruct (step_not_mutated _ _ Hne Hm) as [Hd' Ho'].
      rewrite orb_false_r, Hd', Ho'. split; assumption.
Qed.

Lemma record_from (ops : list op) (h : History) :
  history_inv h ->
  history_inv (fold_left record_step ops h)
  /\ cam (fold_left record_step ops h) = run (cam h) ops.
Proof.
  revert h. induction ops as [ | o ops IH]; intros h Hh.
  - split; [exact Hh | reflexivity].
  - cbn [fold_left run]. destruct (IH (record_step h o)) as [Hi Hc].
    + apply history_inv_step, Hh.
    + split; [exact Hi | ]. rewrite Hc. destruct o; reflexivity.
Qed.

(** * The properties of the specification *)

(** ** Position *)

(** C3: [position] returns exactly
    [(radius*cos(phi)*cos(theta), radius*sin(phi), radius*cos(phi)*sin(theta))]
    in every state; its Euclidean norm is the radius, for every [theta] and
    [phi] (the radius of the data model is not negative); and the freshly
    constructed camera is at [(50, 0, 0)]. *)
Theorem position_spherical (self : Camera) :
  position self =
    mk3 (Fin (radius self * Rtrigo_def.cos (phi self) * Rtrigo_def.cos (theta self)))
        (Fin (radius self * Rtrigo_def.sin (phi self)))
        (Fin (radius self * Rtrigo_def.cos (phi self) * Rtrigo_def.sin (theta self)))
  /\ (0 <= radius self -> norm (position self) = Fin (radius self))
  /\ (radius init = 50 /\ theta init = 0 /\ phi init = 0
      /\ position init = mk3 (Fin 50) (Fin 0) (Fin 0)).
Proof.
  split; [reflexivity | split].
  - intros Hr. rewrite position_norm, Rabs_right by lra. reflexivity.
  - repeat split. unfold position, init, NP.cos, NP.sin, mul.
    cbn [radius theta phi]. rewrite cos_0, sin_0.
    f_equal; f_equal; ring.
Qed.

Lemma position_spherical_witness :
  0 <= radius init /\ norm (position init) = Fin (radius init).
Proof.
  assert (H : 0 <= radius init) by (cbn [radius init]; lra).
  split; [exact H | exact (proj1 (proj2 (position_spherical init)) H)].
Defined.

(** ** Pointer input *)

(** C4: a pointer-move with delta [(dx, dy)] handled while dragging adds
    [dx * mouse_sensitivity] to [theta], subtracts [dy * mouse_sensitivity]
    from [phi] and clamps the result to [[-np.pi/2, np.pi/2]], and sets the
    flag; every other field keeps its value. *)
Theorem handle_event_drag_motion (self : Camera) (event : Event) (dx dy : Z) :
  type event = MOUSEMOTION -> rel event = Some (dx, dy) -> dragging self = true ->
  exists self',
    handle_event self event = Ok self'
    /\ theta self' = theta self + IZR dx * mouse_sensitivity self
    /\ phi self' =
         Rmax (- NP.pi / 2) (Rmin (NP.pi / 2) (phi self - IZR dy * mouse_sensitivity self))
    /\ - NP.pi / 2 <= phi self' <= NP.pi / 2
    /\ _dirty self' = true
    /\ radius self' = radius self
    /\ fov self' = fov self
    /\ mouse_sensitivity self' = mouse_sensitivity self
    /\ dragging self' = dragging self.
Proof.
  intros Ht Hrel Hd. eexists. split.
  - apply (handle_event_motion self event dx dy Ht Hrel Hd).
  - cbn [radius theta phi fov mouse_sensitivity dragging _dirty].
    repeat split; try apply clamp_range.
    rewrite py_max_Rmax, py_min_Rmin, Rmin_comm. reflexivity.
Qed.

Lemma handle_event_drag_motion_witness :
  exists self',
    handle_event (set_dragging init true) (motion 100 0) = Ok self'
    /\ theta self' = 0 + 100 * 0.005
    /\ phi self' = Rmax (- NP.pi / 2) (Rmin (NP.pi / 2) (0 - 0 * 0.005))
    /\ - NP.pi / 2 <= phi self' <= NP.pi / 2
    /\ _dirty self' = true
    /\ radius self' = 50
    /\ fov self' = radians 50
    /\ mouse_sensitivity self' = 0.005
    /\ dragging self' = true.
Proof.
  exact (handle_event_drag_motion (set_dragging init true) (motion 100 0) 100 0
           eq_refl eq_refl eq_refl).
Defined.

(** The drag of the specification's scenario: press, move by 100 pixels to
    the right, release, move again. *)
Lemma drag_scenario :
  theta (run init [HandleEvent (button_down 1); HandleEvent (motion 100 0);
                   HandleEvent (button_up 1); HandleEvent (motion 7 (-9))]) = 0.5
  /\ phi (run init [HandleEvent (button_down 1); HandleEvent (motion 100 0);
                    HandleEvent (button_up 1); HandleEvent (motion 7 (-9))]) = 0
  /\ dragging (run init [HandleEvent (button_down 1); HandleEvent (motion 100 0);
                         HandleEvent (button_up 1); HandleEvent (motion 7 (-9))]) = false.
Proof.
  split; [ | split; [ | reflexivity]].
  - cbv [run fold_left step handle_event type button rel button_down button_up
         motion Z.eqb Pos.eqb MOUSEBUTTONDOWN MOUSEBUTTONUP MOUSEMOTION andb
         set_dragging set_theta set_phi set_dirty init
         radius theta phi fov mouse_sensitivity dragging _dirty].
    lra.
  - cbv [run fold_left step handle_event type button rel button_down button_up
         motion Z.eqb Pos.eqb MOUSEBUTTONDOWN MOUSEBUTTONUP MOUSEMOTION andb
         set_dragging set_theta set_phi set_dirty init
         radius theta phi fov mouse_sensitivity dragging _dirty].
    rewrite clamp_inside by (generalize np_pi_pos; lra). lra.
Qed.

(** C9: a pointer-move received while not dragging, an event of a kind the
    camera does not recognise, and a button event for a button other than the
    primary one all leave the whole state as it was, and none of them raises;
    for the first two this holds whatever attributes the event carries. *)
Theorem handle_event_ignored (self : Camera) (event : Event) :
  (type event = MOUSEMOTION /\ dragging self = false)
  \/ (type event <> MOUSEBUTTONDOWN /\ type event <> MOUSEBUTTONUP
      /\ type event <> MOUSEMOTION)
  \/ ((type event = MOUSEBUTTONDOWN \/ type event = MOUSEBUTTONUP)
      /\ exists b, button event = Some b /\ b <> 1%Z) ->
  handle_event self event = Ok self.
Proof.
  unfold handle_event.
  intros [[Ht Hd] | [[Hdown [Hup Hmove]] | [Ht [b [Hb Hne]]]]].
  - rewrite Ht, Hd. reflexivity.
  - apply Z.eqb_neq in Hdown, Hup, Hmove. rewrite Hdown, Hup, Hmove. reflexivity.
  - apply Z.eqb_neq in Hne. rewrite Hb, Hne.
    destruct Ht as [-> | ->]; reflexivity.
Qed.

Lemma handle_event_ignored_witness :
  (type (motion 3 4) = MOUSEMOTION /\ dragging init = false)
  /\ handle_event init (motion 3 4) = Ok init.
Proof.
  split.
  - split; reflexivity.
  - apply handle_event_ignored. left. split; reflexivity.
Defined.

(** ** The clamp on [phi] *)

Lemma step_drag_far (self : Camera) (dy : Z) :
  dragging self = true -> mouse_sensitivity self = 0.005 ->
  - NP.pi / 2 <= phi self <= NP.pi / 2 ->
  let self' := step self (HandleEvent (motion 0 dy)) in
  dragging self' = true /\ mouse_sensitivity self' = 0.005
  /\ ((dy <= -800)%Z -> phi self' = NP.pi / 2)
  /\ ((800 <= dy)%Z -> phi self' = - NP.pi / 2).
Proof.
  intros Hd Hs Hphi. cbn zeta. cbn [step].
  rewrite (handle_event_motion self (motion 0 dy) 0 dy eq_refl eq_refl Hd).
  cbn [dragging mouse_sensitivity phi]. rewrite Hs.
  generalize np_pi_le_4 np_pi_pos. intros Hpi4 Hpi0.
  repeat split; try assumption; intros Hdy; apply IZR_le in Hdy.
  - apply clamp_above. lra.
  - apply clamp_below. lra.
Qed.

Lemma run_repeat_drag (n : nat) (dy : Z) (self : Camera) :
  dragging self = true -> mouse_sensitivity self = 0.005 ->
  - NP.pi / 2 <= phi self <= NP.pi / 2 ->
  let self' := run self (repeat (HandleEvent (motion 0 dy)) (S n)) in
  ((dy <= -800)%Z -> phi self' = NP.pi / 2)
  /\ ((800 <= dy)%Z -> phi self' = - NP.pi / 2).
Proof.
  revert self. induction n as [ | n IH]; intros self Hd Hs Hphi.
  - destruct (step_drag_far self dy Hd Hs Hphi) as [_ [_ H]]. exact H.
  - destruct (step_drag_far self dy Hd Hs Hphi) as [Hd' [Hs' _]].
    change (run self (repeat (HandleEvent (motion 0 dy)) (S (S n))))
      with (run (step self (HandleEvent (motion 0 dy)))
                (repeat (HandleEvent (motion 0 dy)) (S n))).
    apply IH; try assumption. apply step_phi_range, Hphi.
Qed.

Lemma phi_init_range : - NP.pi / 2 <= phi init <= NP.pi / 2.
Proof. generalize np_pi_pos. cbn [phi init]. lra. Qed.

(** C6: [phi] starts at 0 and lies in [[-np.pi/2, np.pi/2]], the interval of
    the clamp, in every state reached from construction by any sequence of
    calls; a drag that would carry it past a bound leaves it exactly on that
    bound, and repeating a large drag keeps it there. *)
Theorem phi_clamped_reachable :
  phi init = 0
  /\ (forall ops, - NP.pi / 2 <= phi (run init ops) <= NP.pi / 2)
  /\ (forall ops, - PI / 2 < phi (run init ops) < PI / 2)
  /\ (forall self event dx dy,
        type event = MOUSEMOTION -> rel event = Some (dx, dy) ->
        dragging self = true ->
        (NP.pi / 2 <= phi self - IZR dy * mouse_sensitivity self ->
         phi (step self (HandleEvent event)) = NP.pi / 2)
        /\ (phi self - IZR dy * mouse_sensitivity self <= - NP.pi / 2 ->
            phi (step self (HandleEvent event)) = - NP.pi / 2))
  /\ (forall n dy,
        let self' :=
          run init (HandleEvent (button_down 1)
                    :: repeat (HandleEvent (motion 0 dy)) (S n)) in
        ((dy <= -800)%Z -> phi self' = NP.pi / 2)
        /\ ((800 <= dy)%Z -> phi self' = - NP.pi / 2)).
Proof.
  split; [reflexivity | split; [ | split; [ | split]]].
  - intros ops. apply run_phi_range, phi_init_range.
  - intros ops. generalize (run_phi_range ops init phi_init_range) np_pi_lt_PI. lra.
  - intros self event dx dy Ht Hrel Hd. cbn [step].
    rewrite (handle_event_motion self event dx dy Ht Hrel Hd). cbn [phi].
    split; intros H; [apply clamp_above | apply clamp_below]; exact H.
  - intros n dy.
    change (run init (HandleEvent (button_down 1)
                      :: repeat (HandleEvent (motion 0 dy)) (S n)))
      with (run (set_dragging init true) (repeat (HandleEvent (motion 0 dy)) (S n))).
    apply run_repeat_drag; try reflexivity. apply phi_init_range.
Qed.

Lemma phi_clamped_reachable_witness :
  (-1000 <= -800)%Z
  /\ phi (run init (HandleEvent (button_down 1)
                    :: repeat (HandleEvent (motion 0 (-1000))) 3)) = NP.pi / 2.
Proof.
  assert (H : (-1000 <= -800)%Z) by lia.
  split; [exact H | ].
  exact (proj1 (proj2 (proj2 (proj2 (proj2 phi_clamped_reachable))) 2%nat (-1000)%Z) H).
Defined.

(** ** The dirty flag *)

Lemma record_still_drag :
  record still_drag =
  mkHistory
    {| radius := 50;
       theta := 0 + 0 * 0.005;
       phi := py_max (- NP.pi / 2) (py_min (NP.pi / 2) (0 - 0 * 0.005));
       fov := radians 50;
       mouse_sensitivity := 0.005;
       dragging := true;
       _dirty := true |}
    (0, 0) true true.
Proof. reflexivity. Qed.

Lemma record_clamped_drag :
  _dirty (cam (record clamped_drag)) = true
  /\ orientation (cam (record clamped_drag)) = last_read (record clamped_drag).
Proof.
  split; [reflexivity | ].
  cbv [record clamped_drag fold_left record_step step handle_event consume_dirty
       start orientation cam last_read snd
       type button rel button_down motion
       Z.eqb Pos.eqb MOUSEBUTTONDOWN MOUSEBUTTONUP MOUSEMOTION andb
       set_dragging set_theta set_phi set_dirty init
       radius theta phi fov mouse_sensitivity dragging _dirty].
  assert (H1 : py_max (- NP.pi / 2) (py_min (NP.pi / 2) (0 - -800 * 0.005))
               = NP.pi / 2)
    by (apply clamp_above; generalize np_pi_le_4; lra).
  rewrite H1.
  rewrite clamp_above by lra.
  f_equal. lra.
Qed.

(** C7, as stated, fails: after the flag is read, a pointer-move that
    reports no motion sets the flag although neither [theta] nor [phi] has
    changed since the read; so does a vertical drag against the bound of
    the clamp. *)
Lemma dirty_without_orientation_change :
  (_dirty (cam (record still_drag)) = true
   /\ orientation (cam (record still_drag)) = last_read (record still_drag))
  /\ (_dirty (cam (record clamped_drag)) = true
      /\ orientation (cam (record clamped_drag)) = last_read (record clamped_drag))
  /\ ~ (forall ops,
          _dirty (cam (record ops)) = true <->
          orientation (cam (record ops)) <> last_read (record ops)).
Proof.
  assert (E : orientation (cam (record still_drag)) = last_read (record still_drag)).
  { rewrite record_still_drag. unfold orientation. cbn [cam last_read theta phi].
    rewrite clamp_inside by (generalize np_pi_pos; lra).
    f_equal; lra. }
  split; [split; [reflexivity | exact E] | split; [exact record_clamped_drag | ]].
  intros H. destruct (H still_drag) as [H' _]. apply H'; [reflexivity | exact E].
Qed.

(** C7, amended: the flag starts true; [consume_dirty] returns the flag as it
    was, resets it and touches nothing else; after any sequence of calls the
    flag is true exactly when [consume_dirty] has not been called yet or a
    pointer-move has been handled while dragging since its last call; so the
    flag is true whenever [theta] or [phi] differs from its value at the last
    read, and after one drag-motion event the next read returns true and
    the one after it false. *)
Theorem dirty_flag_protocol :
  _dirty init = true
  /\ (forall self,
        fst (consume_dirty self) = _dirty self
        /\ snd (consume_dirty self) = set_dirty self false
        /\ _dirty (snd (consume_dirty self)) = false)
  /\ (forall ops,
        cam (record ops) = run init ops
        /\ (_dirty (cam (record ops)) = true <->
            consumed (record ops) = false \/ mutated (record ops) = true)
        /\ (orientation (cam (record ops)) <> last_read (record ops) ->
            _dirty (cam (record ops)) = true))
  /\ (forall self event dx dy,
        type event = MOUSEMOTION -> rel event = Some (dx, dy) ->
        dragging self = true ->
        let self' := step self (HandleEvent event) in
        fst (consume_dirty self') = true
        /\ fst (consume_dirty (snd (consume_dirty self'))) = false).
Proof.
  split; [reflexivity | split; [ | split]].
  - intros self. repeat split.
  - intros ops. destruct (record_from ops start history_inv_start) as [[Hd Ho] Hc].
    fold (record ops) in Hd, Ho, Hc. split; [exact Hc | ]. rewrite Hd. split.
    + destruct (consumed (record ops)), (mutated (record ops)); cbn; intuition congruence.
    + intros Hne. destruct (mutated (record ops)).
      * apply orb_true_r.
      * exfalso. apply Hne, Ho. reflexivity.
  - intros self event dx dy Ht Hrel Hd. cbn zeta. cbn [step].
    rewrite (handle_event_motion self event dx dy Ht Hrel Hd). split; reflexivity.
Qed.

Lemma dirty_flag_protocol_witness :
  fst (consume_dirty (step (set_dragging init true) (HandleEvent (motion 100 0)))) = true
  /\ fst (consume_dirty (snd (consume_dirty
            (step (set_dragging init true) (HandleEvent (motion 100 0)))))) = false.
Proof.
  exact (proj2 (proj2 (proj2 dirty_flag_protocol))
           (set_dragging init true) (motion 100 0) 100%Z 0%Z eq_refl eq_refl eq_refl).
Defined.

(** ** Reachable states *)

Lemma handle_event_radius (self self' : Camera) (event : Event) :
  handle_event self event = Ok self' -> radius self' = radius self.
Proof.
  unfold handle_event. intros H.
  destruct (type event =? MOUSEBUTTONDOWN)%Z.
  { destruct (button event) as [b | ]; [ | discriminate].
    destruct (b =? 1)%Z; injection H as <-; reflexivity. }
  destruct (type event =? MOUSEBUTTONUP)%Z.
  { destruct (button event) as [b | ]; [ | discriminate].
    destruct (b =? 1)%Z; injection H as <-; reflexivity. }
  destruct ((type event =? MOUSEMOTION)%Z && dragging self).
  { destruct (rel event) as [[dx dy] | ]; [ | discriminate].
    injection H as <-. reflexivity. }
  injection H as <-. reflexivity.
Qed.

Lemma step_radius (self : Camera) (o : op) : radius (step self o) = radius self.
Proof.
  destruct o as [event | dt | | | | px py w h]; try reflexivity.
  cbn [step]. destruct (handle_event self event) as [self' | e] eqn:E.
  - exact (handle_event_radius self self' event E).
  - reflexivity.
Qed.

Lemma run_radius (ops : list op) (self : Camera) :
  radius (run self ops) = radius self.
Proof.
  revert self. induction ops as [ | o ops IH]; intros self.
  - reflexivity.
  - cbn [run fold_left]. fold (run (step self o) ops).
    rewrite IH. apply step_radius.
Qed.

Lemma reachable_valid (ops : list op) : valid_state (run init ops).
Proof.
  split.
  - rewrite run_radius. cbn [radius init]. lra.
  - apply run_phi_range, phi_init_range.
Qed.

Lemma init_regular : regular_state init.
Proof. apply valid_regular, (reachable_valid []). Qed.

(** ** The boundary of the clamp and the origin *)

Lemma top_state_phi : phi top_state = NP.pi / 2.
Proof.
  change top_state
    with (step (set_dragging init true) (HandleEvent (motion 0 (-800)))).
  destruct (step_drag_far (set_dragging init true) (-800)
              eq_refl eq_refl phi_init_range) as [_ [_ [H _]]].
  apply H. lia.
Qed.

Lemma bottom_state_phi : phi (run init drag_to_bottom) = - NP.pi / 2.
Proof.
  change (run init drag_to_bottom)
    with (step (set_dragging init true) (HandleEvent (motion 0 800))).
  destruct (step_drag_far (set_dragging init true) 800
              eq_refl eq_refl phi_init_range) as [_ [_ [_ H]]].
  apply H. lia.
Qed.

Lemma top_state_valid : valid_state top_state.
Proof. apply reachable_valid. Qed.

Lemma cos_pole (x : R) :
  x = PI / 2 \/ x = - PI / 2 -> Rtrigo_def.cos x = 0.
Proof.
  intros [-> | ->].
  - apply cos_PI2.
  - replace (- PI / 2) with (- (PI / 2)) by lra. rewrite cos_neg. apply cos_PI2.
Qed.

Lemma orthonormal_regular (self : Camera) :
  regular_state self -> orthonormal (basis_vectors self).
Proof.
  intros Hreg.
  rewrite basis_vectors_regular by (try apply cos_phi_pos; apply Hreg).
  unfold orthonormal. rewrite !dot_of_reals, !norm_of_reals.
  rewrite forward_right_exact, forward_up_exact, right_up_exact.
  rewrite forward_exact_norm, right_exact_norm, up_exact_norm.
  repeat split.
Qed.

Lemma spec_ray_direction_dir (self : Camera) (px py W H : R) :
  spec_ray_direction (forward_exact self) (right_exact self) (up_exact self)
                     (fov self) px py W H =
  RV.normalize
    (dir_exact self
       ((((px + 0.5) / W) * 2 - 1) * (W / H) * Rtrigo1.tan (fov self / 2))
       ((1 - ((py + 0.5) / H) * 2) * Rtrigo1.tan (fov self / 2))).
Proof. reflexivity. Qed.

Lemma center_pixel (n : Z) :
  Z.odd n = true -> IZR ((n - 1) / 2) = (IZR n - 1) / 2.
Proof.
  intros Hodd. apply Z.odd_spec in Hodd. destruct Hodd as [k ->].
  replace (2 * k + 1 - 1)%Z with (k * 2)%Z by ring.
  rewrite Z.div_mul by discriminate.
  rewrite plus_IZR, mult_IZR. lra.
Qed.

Lemma dir_exact_center (self : Camera) (a b : R) :
  dir_exact self (0 * a) (0 * b) = forward_exact self.
Proof.
  unfold dir_exact. destruct (forward_exact self) as [[f0 f1] f2].
  destruct (right_exact self) as [[r0 r1] r2].
  destruct (up_exact self) as [[u0 u1] u2].
  unfold RV.add, RV.scale. apply vec_ext; ring.
Qed.

(** ** The frame *)

(** C2: in every valid state (a positive radius, [phi] within the clamp)
    [forward], [right] and [up] are pairwise orthogonal and each of unit
    norm; every state reached from construction is valid; and the frame
    is a function of the current [radius], [theta] and [phi] alone, so
    nothing of an earlier call is kept. *)
Theorem basis_vectors_orthonormal :
  (forall self, valid_state self -> orthonormal (basis_vectors self))
  /\ (forall ops, valid_state (run init ops))
  /\ (forall self self',
        radius self' = radius self -> theta self' = theta self ->
        phi self' = phi self ->
        basis_vectors self' = basis_vectors self).
Proof.
  split; [ | split].
  - intros self Hv. apply orthonormal_regular, valid_regular, Hv.
  - exact reachable_valid.
  - intros self self' Hr Ht Hp.
    unfold basis_vectors, position. rewrite Hr, Ht, Hp. reflexivity.
Qed.

Lemma basis_vectors_orthonormal_witness :
  valid_state top_state /\ orthonormal (basis_vectors top_state).
Proof.
  split; [exact top_state_valid | ].
  exact (proj1 basis_vectors_orthonormal top_state top_state_valid).
Defined.

(** ** Degenerate geometry *)

(** C8, as stated, fails: at radius zero neither query raises; both return
    arrays of [nan]. *)
Lemma zero_radius_returns_nan :
  radius origin_state = 0
  /\ basis_vectors origin_state = (all_nan, all_nan, all_nan)
  /\ ray_direction origin_state 0 0 1 1 = Ok all_nan
  /\ ~ (exists e, ray_direction origin_state 0 0 1 1 = Raise e).
Proof.
  assert (Hb : basis_vectors origin_state = (all_nan, all_nan, all_nan))
    by (apply basis_vectors_origin; reflexivity).
  assert (Hr : ray_direction origin_state 0 0 1 1 = Ok all_nan).
  { apply ray_direction_nan; [rewrite Hb; reflexivity | discriminate | discriminate]. }
  split; [reflexivity | split; [exact Hb | split; [exact Hr | ]]].
  intros [e He]. rewrite Hr in He. discriminate He.
Qed.

(** C8, amended: when the radius is zero the position is the zero vector,
    [basis_vectors] divides it by its zero norm and returns three arrays of
    [nan], and [ray_direction], for image sizes that are not zero, returns
    an array of [nan]; neither raises. *)
Theorem zero_radius_no_error (self : Camera) :
  radius self = 0 ->
  position self = of_reals (0, 0, 0)
  /\ norm (position self) = Fin 0
  /\ basis_vectors self = (all_nan, all_nan, all_nan)
  /\ forall px py img_w img_h,
       img_w <> 0%Z -> img_h <> 0%Z ->
       ray_direction self px py img_w img_h = Ok all_nan.
Proof.
  intros Hr.
  assert (Hb : basis_vectors self = (all_nan, all_nan, all_nan))
    by (apply basis_vectors_origin; exact Hr).
  split; [ | split; [ | split; [exact Hb | ]]].
  - rewrite position_exact, Hr. f_equal. apply vec_ext; ring.
  - rewrite position_norm, Hr, Rabs_R0. reflexivity.
  - intros px py img_w img_h Hw Hh.
    apply ray_direction_nan; [rewrite Hb; reflexivity | exact Hw | exact Hh].
Qed.

Lemma zero_radius_no_error_witness :
  radius origin_state = 0
  /\ basis_vectors origin_state = (all_nan, all_nan, all_nan).
Proof.
  split; [reflexivity | ].
  exact (proj1 (proj2 (proj2 (zero_radius_no_error origin_state eq_refl)))).
Defined.

(** ** Pixel rays *)

(** C1: in every valid state (a positive radius, [phi] within the clamp), for
    positive image sizes and any pixel coordinates, [ray_direction] raises
    nothing and returns the vector that the pixel-to-ray algorithm of the
    specification computes from the frame [basis_vectors] returns: a finite
    vector of norm one. *)
Theorem ray_direction_unit
  (self : Camera) (px py : R) (img_w img_h : Z) :
  valid_state self -> (0 < img_w)%Z -> (0 < img_h)%Z ->
  exists forward right' up : RV.vec,
    basis_vectors self = (of_reals forward, of_reals right', of_reals up)
    /\ ray_direction self px py img_w img_h =
       Ok (of_reals (spec_ray_direction forward right' up (fov self)
                       px py (IZR img_w) (IZR img_h)))
    /\ norm (of_reals (spec_ray_direction forward right' up (fov self)
                         px py (IZR img_w) (IZR img_h))) = Fin 1
    /\ all_finite (of_reals (spec_ray_direction forward right' up (fov self)
                               px py (IZR img_w) (IZR img_h))) = true.
Proof.
  intros Hv Hw Hh. assert (Hreg := valid_regular self Hv).
  exists (forward_exact self), (right_exact self), (up_exact self).
  split; [ | split; [ | split]].
  - apply basis_vectors_regular; [apply Hreg | apply cos_phi_pos, Hreg].
  - apply ray_direction_regular; [exact Hreg | lia | lia].
  - rewrite norm_of_reals, spec_ray_direction_dir. f_equal.
    apply norm_normalize, dir_exact_norm_nonzero.
  - apply all_finite_of_reals.
Qed.

Lemma ray_direction_unit_witness :
  valid_state top_state /\ (0 < 3)%Z /\ (0 < 3)%Z
  /\ exists forward right' up : RV.vec,
       basis_vectors top_state = (of_reals forward, of_reals right', of_reals up)
       /\ ray_direction top_state 0 2 3 3 =
          Ok (of_reals (spec_ray_direction forward right' up (fov top_state)
                          0 2 (IZR 3) (IZR 3)))
       /\ norm (of_reals (spec_ray_direction forward right' up (fov top_state)
                            0 2 (IZR 3) (IZR 3))) = Fin 1
       /\ all_finite (of_reals (spec_ray_direction forward right' up (fov top_state)
                                  0 2 (IZR 3) (IZR 3))) = true.
Proof.
  split; [exact top_state_valid | split; [reflexivity | split; [reflexivity | ]]].
  exact (ray_direction_unit top_state 0 2 3 3 top_state_valid eq_refl eq_refl).
Defined.

(** C5: in every state with a positive radius and [phi] strictly between
    [-pi/2] and [pi/2], and for odd positive image sizes, the ray through the
    centre pixel [((img_w-1)/2, (img_h-1)/2)] is the [forward] vector of
    [basis_vectors], which [fov] does not enter. *)
Theorem center_ray_is_forward (self : Camera) (img_w img_h : Z) :
  regular_state self -> (0 < img_w)%Z -> (0 < img_h)%Z ->
  Z.odd img_w = true -> Z.odd img_h = true ->
  ray_direction self (IZR ((img_w - 1) / 2)) (IZR ((img_h - 1) / 2)) img_w img_h
    = Ok (fst (fst (basis_vectors self)))
  /\ fst (fst (basis_vectors self)) = of_reals (forward_exact self).
Proof.
  intros Hreg Hw Hh Ow Oh.
  assert (Hb := basis_vectors_regular self (proj1 Hreg) (cos_phi_pos self Hreg)).
  rewrite Hb. cbn [fst]. split; [ | reflexivity].
  rewrite ray_direction_regular by (try exact Hreg; lia).
  rewrite spec_ray_direction_dir, !center_pixel by assumption.
  apply IZR_lt in Hw, Hh.
  replace ((IZR img_w - 1) / 2 + 0.5) with (IZR img_w / 2) by lra.
  replace ((IZR img_h - 1) / 2 + 0.5) with (IZR img_h / 2) by lra.
  replace (IZR img_w / 2 / IZR img_w * 2 - 1) with 0 by (field; lra).
  replace (1 - IZR img_h / 2 / IZR img_h * 2) with 0 by (field; lra).
  rewrite Rmult_assoc, dir_exact_center.
  unfold RV.normalize. rewrite forward_exact_norm.
  do 2 f_equal. destruct (forward_exact self) as [[f0 f1] f2].
  unfold RV.scale. apply vec_ext; field.
Qed.

Lemma center_ray_is_forward_witness :
  regular_state init /\ (0 < 5)%Z /\ (0 < 3)%Z
  /\ Z.odd 5 = true /\ Z.odd 3 = true
  /\ ray_direction init (IZR ((5 - 1) / 2)) (IZR ((3 - 1) / 2)) 5 3
     = Ok (fst (fst (basis_vectors init))).
Proof.
  repeat (split; [first [exact init_regular | reflexivity] | ]).
  exact (proj1 (center_ray_is_forward init 5 3 init_regular
                  eq_refl eq_refl eq_refl eq_refl)).
Defined.

(** ** Divisors *)

(** C10, as stated, fails in its last part: the state reached by dragging up
    to the bound of the clamp has [phi = np.pi/2], and there the norm of
    [cross(world_up, forward)] is [cos(np.pi/2)], which is positive, not
    zero, because [np.pi/2] lies below pi/2; and no sequence of calls
    brings [phi] to pi/2 or to -pi/2. *)
Lemma cross_norm_at_clamp_bound_nonzero :
  top_state = run init drag_to_top
  /\ phi top_state = NP.pi / 2
  /\ norm (right_unnormalized top_state) = Fin (Rtrigo_def.cos (NP.pi / 2))
  /\ 0 < Rtrigo_def.cos (NP.pi / 2)
  /\ norm (right_unnormalized top_state) <> Fin 0
  /\ ~ (exists ops, phi (run init ops) = PI / 2 \/ phi (run init ops) = - PI / 2).
Proof.
  assert (Hc : 0 < Rtrigo_def.cos (phi top_state))
    by apply cos_phi_pos, valid_regular, top_state_valid.
  assert (Hn : norm (right_unnormalized top_state) =
               Fin (Rtrigo_def.cos (phi top_state))).
  { rewrite right_unnormalized_norm, Rabs_right by (try apply top_state_valid; lra).
    reflexivity. }
  rewrite top_state_phi in Hc, Hn.
  split; [reflexivity | split; [exact top_state_phi | ]].
  split; [exact Hn | split; [exact Hc | split]].
  - rewrite Hn. intros E. injection E as E. lra.
  - intros [ops Hops]. destruct (reachable_valid ops) as [_ Hv].
    generalize np_pi_lt_PI. destruct Hops as [E | E]; lra.
Qed.

(** C10, amended: in every state with a positive radius and [phi] strictly
    between [-pi/2] and [pi/2], the norms that [basis_vectors] and
    [ray_direction] divide by are not zero: the norm of the position is the
    radius, the norm of [cross(world_up, forward)] is [cos(phi) > 0], and the
    direction before normalisation has norm at least one.  Every valid state
    is such a state, the two bounds [phi = np.pi/2] and [phi = -np.pi/2] of
    the clamp included, which dragging reaches.  The cross product has norm
    zero exactly where [cos(phi) = 0], as at [phi = pi/2] and [phi = -pi/2],
    and no valid state is there. *)
Theorem divisors_nonzero_regular :
  (forall self,
     regular_state self ->
     norm (position self) = Fin (radius self) /\ radius self <> 0
     /\ norm (right_unnormalized self) = Fin (Rtrigo_def.cos (phi self))
     /\ 0 < Rtrigo_def.cos (phi self)
     /\ (forall px py img_w img_h,
           let x_cam := fst (camera_offsets self px py img_w img_h) in
           let y_cam := snd (camera_offsets self px py img_w img_h) in
           (exists d, norm (dir_world_of self x_cam y_cam) = Fin d /\ 1 <= d)
           /\ (img_w <> 0%Z -> img_h <> 0%Z ->
               ray_direction self px py img_w img_h =
               Ok (vdiv (dir_world_of self x_cam y_cam)
                        (norm (dir_world_of self x_cam y_cam)))))
     /\ basis_vectors self =
        (vdiv (vneg (position self)) (norm (position self)),
         vdiv (right_unnormalized self) (norm (right_unnormalized self)),
         cross (forward_of self)
               (vdiv (right_unnormalized self) (norm (right_unnormalized self)))))
  /\ (forall self, valid_state self -> regular_state self)
  /\ (forall ops, valid_state (run init ops))
  /\ phi (run init drag_to_top) = NP.pi / 2
  /\ phi (run init drag_to_bottom) = - NP.pi / 2
  /\ (forall self,
        0 < radius self ->
        (norm (right_unnormalized self) = Fin 0 <-> Rtrigo_def.cos (phi self) = 0))
  /\ (forall self,
        0 < radius self -> phi self = PI / 2 \/ phi self = - PI / 2 ->
        norm (right_unnormalized self) = Fin 0
        /\ basis_vectors self = (of_reals (forward_exact self), all_nan, all_nan)
        /\ ~ valid_state self).
Proof.
  split; [ | split; [ | split; [ | split; [ | split; [ | split]]]]].
  - intros self Hreg. assert (Hc := cos_phi_pos self Hreg).
    destruct Hreg as [Hr Hphi].
    split; [rewrite position_norm, Rabs_right by lra; reflexivity | ].
    split; [lra | ].
    split; [rewrite right_unnormalized_norm, Rabs_right by lra; reflexivity | ].
    split; [exact Hc | ]. split; [ | reflexivity].
    intros px py img_w img_h. cbn zeta. split.
    + rewrite camera_offsets_finite. cbn [fst snd].
      rewrite dir_world_regular, norm_of_reals by (split; assumption).
      eexists. split; [reflexivity | apply dir_exact_norm_ge_1].
    + intros Hw Hh. rewrite ray_direction_unfold by assumption.
      destruct (camera_offsets self px py img_w img_h) as [x_cam y_cam].
      reflexivity.
  - exact valid_regular.
  - exact reachable_valid.
  - exact top_state_phi.
  - exact bottom_state_phi.
  - intros self Hr. rewrite right_unnormalized_norm by exact Hr. split.
    + intros E. injection E as E.
      destruct (Req_dec (Rtrigo_def.cos (phi self)) 0) as [Z | NZ]; [exact Z | ].
      exfalso. exact (Rabs_no_R0 _ NZ E).
    + intros ->. rewrite Rabs_R0. reflexivity.
  - intros self Hr Hphi. split; [ | split].
    + rewrite right_unnormalized_norm, (cos_pole _ Hphi), Rabs_R0 by exact Hr.
      reflexivity.
    + apply basis_vectors_pole; [exact Hr | apply cos_pole, Hphi].
    + intros [_ Hv]. generalize np_pi_lt_PI. destruct Hphi as [E | E]; lra.
Qed.

Lemma divisors_nonzero_regular_witness :
  regular_state top_state
  /\ norm (right_unnormalized top_state) = Fin (Rtrigo_def.cos (phi top_state))
  /\ 0 < Rtrigo_def.cos (phi top_state).
Proof.
  assert (Hreg : regular_state top_state)
    by exact (valid_regular top_state top_state_valid).
  split; [exact Hreg | ].
  destruct (proj1 divisors_nonzero_regular top_state Hreg) as [_ [_ [H3 [H4 _]]]].
  split; [exact H3 | exact H4].
Defined.

(** * Further properties of the code *)

(** ** Exceptions *)



(** ** What the calls leave alone *)

Lemma handle_event_settings (self self' : Camera) (event : Event) :
  handle_event self event = Ok self' ->
  fov self' = fov self /\ mouse_sensitivity self' = mouse_sensitivity self.
Proof.
  unfold handle_event. intros H.
  destruct (type event =? MOUSEBUTTONDOWN)%Z.
  { destruct (button event) as [b | ]; [ | discriminate].
    destruct (b =? 1)%Z; injection H as <-; split; reflexivity. }
  destruct (type event =? MOUSEBUTTONUP)%Z.
  { destruct (button event) as [b | ]; [ | discriminate].
    destruct (b =? 1)%Z; injection H as <-; split; reflexivity. }
  destruct ((type event =? MOUSEMOTION)%Z && dragging self).
  { destruct (rel event) as [[dx dy] | ]; [ | discriminate].
    injection H as <-. split; reflexivity. }
  injection H as <-. split; reflexivity.
Qed.

Lemma step_settings (self : Camera) (o : op) :
  fov (step self o) = fov self
  /\ mouse_sensitivity (step self o) = mouse_sensitivity self.
Proof.
  destruct o as [event | dt | | | | px py w h]; try (split; reflexivity).
  cbn [step]. destruct (handle_event self event) as [self' | e] eqn:E.
  - exact (handle_event_settings self self' event E).
  - split; reflexivity.
Qed.

Lemma run_settings (ops : list op) (self : Camera) :
  fov (run self ops) = fov self
  /\ mouse_sensitivity (run self ops) = mouse_sensitivity self.
Proof.
  revert self. induction ops as [ | o ops IH]; intros self.
  - split; reflexivity.
  - cbn [run fold_left]. fold (run (step self o) ops).
    destruct (IH (step self o)) as [Hf Hs]. destruct (step_settings self o) as [Hf' Hs'].
    split; congruence.
Qed.

(** X3: no sequence of calls changes [radius], [fov] or
    [mouse_sensitivity]: the camera has no zoom, and its settings are those
    of construction for as long as it lives. *)
Theorem settings_never_change (self : Camera) (ops : list op) :
  radius (run self ops) = radius self
  /\ fov (run self ops) = fov self
  /\ mouse_sensitivity (run self ops) = mouse_sensitivity self.
Proof.
  split; [apply run_radius | apply run_settings].
Qed.

(** Queries read [radius], [theta], [phi] and [fov] only. *)
Lemma queries_depend (self self' : Camera) :
  radius self' = radius self -> orientation self' = orientation self ->
  fov self' = fov self ->
  position self' = position self
  /\ basis_vectors self' = basis_vectors self
  /\ forall px py img_w img_h,
       ray_direction self' px py img_w img_h = ray_direction self px py img_w img_h.
Proof.
  unfold orientation. intros Hr Ho Hf. injection Ho as Ht Hp.
  assert (Hpos : position self' = position self)
    by (unfold position; rewrite Hr, Ht, Hp; reflexivity).
  assert (Hb : basis_vectors self' = basis_vectors self)
    by (unfold basis_vectors; rewrite Hpos; reflexivity).
  split; [exact Hpos | split; [exact Hb | ]].
  intros px py img_w img_h. unfold ray_direction. rewrite Hb, Hf. reflexivity.
Qed.

Lemma step_released (self : Camera) (o : op) :
  dragging self = false -> is_primary_press o = false ->
  orientation (step self o) = orientation self /\ dragging (step self o) = false.
Proof.
  intros Hd Hp. destruct o as [event | dt | | | | px py w h];
    try (split; [reflexivity | exact Hd]).
  revert Hp. unfold is_primary_press, step, handle_event. rewrite Hd.
  destruct (type event =? MOUSEBUTTONDOWN)%Z.
  { destruct (button event) as [b | ]; cbn [andb].
    - intros ->. split; [reflexivity | exact Hd].
    - intros _. split; [reflexivity | exact Hd]. }
  intros _. destruct (type event =? MOUSEBUTTONUP)%Z.
  { destruct (button event) as [b | ]; [destruct (b =? 1)%Z | ];
      split; try reflexivity; exact Hd. }
  rewrite andb_false_r. split; [reflexivity | exact Hd].
Qed.

(** X4: while the primary button is up, and as long as no press of it
    arrives, no sequence of calls moves the camera: pointer-moves, presses
    of other buttons, releases and events of any other kind leave [theta]
    and [phi] as they are, and the camera stays released. *)
Theorem released_camera_stays_put (self : Camera) (ops : list op) :
  dragging self = false -> no_primary_press ops = true ->
  orientation (run self ops) = orientation self
  /\ dragging (run self ops) = false.
Proof.
  revert self. induction ops as [ | o ops IH]; intros self Hd Hp.
  - split; [reflexivity | exact Hd].
  - cbn [no_primary_press forallb] in Hp. apply andb_true_iff in Hp.
    destruct Hp as [Ho Hp]. apply negb_true_iff in Ho.
    destruct (step_released self o Hd Ho) as [Hor Hdr].
    cbn [run fold_left]. fold (run (step self o) ops).
    destruct (IH (step self o) Hdr Hp) as [H1 H2].
    split; [rewrite H1; exact Hor | exact H2].
Qed.

Lemma released_camera_stays_put_witness :
  dragging (run init [HandleEvent (button_down 1); HandleEvent (motion 10 0);
                      HandleEvent (button_up 1)]) = false
  /\ no_primary_press [HandleEvent (motion 5 5); HandleEvent (button_down 3);
                       Update 1; HandleEvent (motion (-7) 2)] = true
  /\ orientation
       (run (run init [HandleEvent (button_down 1); HandleEvent (motion 10 0);
                       HandleEvent (button_up 1)])
            [HandleEvent (motion 5 5); HandleEvent (button_down 3);
             Update 1; HandleEvent (motion (-7) 2)])
     = orientation (run init [HandleEvent (button_down 1); HandleEvent (motion 10 0);
                              HandleEvent (button_up 1)]).
Proof.
  split; [reflexivity | split; [reflexivity | ]].
  exact (proj1 (released_camera_stays_put
                  (run init [HandleEvent (button_down 1); HandleEvent (motion 10 0);
                             HandleEvent (button_up 1)])
                  [HandleEvent (motion 5 5); HandleEvent (button_down 3);
                   Update 1; HandleEvent (motion (-7) 2)]
                  eq_refl eq_refl)).
Defined.

(** ** The flag as a cache key *)

Lemma dirty_stays (ops : list op) (self : Camera) :
  no_consume ops = true -> _dirty self = true -> _dirty (run self ops) = true.
Proof.
  revert self. induction ops as [ | o ops IH]; intros self Hn Hd.
  - exact Hd.
  - cbn [no_consume forallb] in Hn. apply andb_true_iff in Hn.
    destruct Hn as [Ho Hn]. cbn [run fold_left]. fold (run (step self o) ops).
    apply IH; [exact Hn | ].
    destruct (orientation_mutated self o) eqn:Hm.
    + apply step_mutated, Hm.
    + assert (Hne : o <> ConsumeDirty) by (intros ->; discriminate Ho).
      destruct (step_not_mutated self o Hne Hm) as [H _]. rewrite H. exact Hd.
Qed.

Lemma clean_run_orientation (ops : list op) (self : Camera) :
  no_consume ops = true -> _dirty (run self ops) = false ->
  orientation (run self ops) = orientation self.
Proof.
  revert self. induction ops as [ | o ops IH]; intros self Hn Hd.
  - reflexivity.
  - assert (Hn' := Hn). cbn [no_consume forallb] in Hn'.
    apply andb_true_iff in Hn'. destruct Hn' as [Ho Hops].
    cbn [run fold_left] in *. fold (run (step self o) ops) in *.
    rewrite (IH (step self o) Hops Hd).
    destruct (orientation_mutated self o) eqn:Hm.
    + exfalso. assert (Ht := dirty_stays ops (step self o) Hops (step_mutated self o Hm)).
      rewrite Ht in Hd. discriminate Hd.
    + assert (Hne : o <> ConsumeDirty) by (intros ->; discriminate Ho).
      exact (proj2 (step_not_mutated self o Hne Hm)).
Qed.

(** X5: between two calls of [consume_dirty], a flag that reads false means
    that nothing a renderer sees has changed: if no call of a sequence is
    [consume_dirty] and the flag is false after it, then [position],
    [basis_vectors] and every [ray_direction] are what they were before
    the sequence. *)
Theorem clean_flag_means_same_view (self : Camera) (ops : list op) :
  no_consume ops = true -> _dirty (run self ops) = false ->
  position (run self ops) = position self
  /\ basis_vectors (run self ops) = basis_vectors self
  /\ forall px py img_w img_h,
       ray_direction (run self ops) px py img_w img_h
       = ray_direction self px py img_w img_h.
Proof.
  intros Hn Hd. apply queries_depend.
  - apply run_radius.
  - apply clean_run_orientation; assumption.
  - apply run_settings.
Qed.

Lemma clean_flag_means_same_view_witness :
  no_consume [HandleEvent (button_down 2); HandleEvent (motion 3 4); Update 1] = true
  /\ _dirty (run (snd (consume_dirty init))
                 [HandleEvent (button_down 2); HandleEvent (motion 3 4); Update 1]) = false
  /\ position (run (snd (consume_dirty init))
                   [HandleEvent (button_down 2); HandleEvent (motion 3 4); Update 1])
     = position (snd (consume_dirty init)).
Proof.
  split; [reflexivity | split; [reflexivity | ]].
  exact (proj1 (clean_flag_means_same_view (snd (consume_dirty init))
                  [HandleEvent (button_down 2); HandleEvent (motion 3 4); Update 1]
                  eq_refl eq_refl)).
Defined.

(** ** How drags compose *)


Lemma two_motions (self : Camera) (dx1 dy1 dx2 dy2 : Z) :
  dragging self = true ->
  run self [HandleEvent (motion dx1 dy1); HandleEvent (motion dx2 dy2)] =
  {| radius := radius self;
     theta := theta self + IZR dx1 * mouse_sensitivity self
              + IZR dx2 * mouse_sensitivity self;
     phi := py_max (- NP.pi / 2)
              (py_min (NP.pi / 2)
                 (py_max (- NP.pi / 2)
                    (py_min (NP.pi / 2) (phi self - IZR dy1 * mouse_sensitivity self))
                  - IZR dy2 * mouse_sensitivity self));
     fov := fov self;
     mouse_sensitivity := mouse_sensitivity self;
     dragging := dragging self;
     _dirty := true |}.
Proof.
  intros Hd. cbn [run fold_left step].
  rewrite (handle_event_motion self (motion dx1 dy1) dx1 dy1 eq_refl eq_refl Hd).
  match goal with
  | |- context [handle_event ?c (motion dx2 dy2)] =>
      rewrite (handle_event_motion c (motion dx2 dy2) dx2 dy2 eq_refl eq_refl Hd)
  end.
  reflexivity.
Qed.






(** X8: the clamp swallows motion.  When a drag would carry [phi] above the
    upper bound, the opposite drag does not bring it back: [phi] ends
    strictly below where it started (unless it started on the lower
    bound). *)
Theorem overshoot_is_not_undone (self : Camera) (dx dy : Z) :
  dragging self = true ->
  - NP.pi / 2 < phi self <= NP.pi / 2 ->
  NP.pi / 2 < phi self - IZR dy * mouse_sensitivity self ->
  phi (run self [HandleEvent (motion dx dy); HandleEvent (motion (- dx) (- dy))])
  < phi self.
Proof.
  intros Hd Hphi Hover. rewrite (two_motions self dx dy (- dx) (- dy) Hd).
  cbn [phi]. rewrite (clamp_above (phi self - IZR dy * mouse_sensitivity self))
    by lra.
  rewrite opp_IZR. unfold py_max, py_min.
  destruct (Rlt_dec _ (NP.pi / 2)); destruct (Rlt_dec (- NP.pi / 2) _); lra.
Qed.

Lemma overshoot_is_not_undone_witness :
  dragging (set_dragging init true) = true
  /\ phi (run (set_dragging init true)
              [HandleEvent (motion 0 (-800)); HandleEvent (motion (- 0) (- -800))])
     < phi (set_dragging init true).
Proof.
  split; [reflexivity | ].
  refine (overshoot_is_not_undone (set_dragging init true) 0 (-800) eq_refl _ _);
    cbn [phi mouse_sensitivity set_dragging init];
    generalize np_pi_pos np_pi_le_4; lra.
Defined.

(** ** Where the camera can be *)

(** X9: the camera never leaves its sphere: after any sequence of calls the
    norm of [position] is what it was before, and for a camera built by
    [__init__] it is 50. *)
Theorem camera_stays_on_sphere (ops : list op) :
  (forall self, norm (position (run self ops)) = norm (position self))
  /\ norm (position (run init ops)) = Fin 50.
Proof.
  split.
  - intros self. rewrite !position_norm, run_radius. reflexivity.
  - rewrite position_norm, run_radius. cbn [radius init].
    rewrite Rabs_right by lra. reflexivity.
Qed.

(** ** The shape of the frame *)

Lemma basis_vectors_valid (self : Camera) :
  valid_state self ->
  basis_vectors self =
  (of_reals (forward_exact self), of_reals (right_exact self), of_reals (up_exact self)).
Proof.
  intros Hv. assert (Hreg := valid_regular self Hv).
  apply basis_vectors_regular; [apply Hreg | apply cos_phi_pos, Hreg].
Qed.

(** X10: in every valid state the horizon stays level and the camera is
    never upside down: the [y] component of [right] is zero and the [y]
    component of [up] is [cos(phi)], which is positive because the clamp
    keeps [phi] short of the poles. *)
Theorem camera_never_inverted (self : Camera) :
  valid_state self ->
  x1 (snd (fst (basis_vectors self))) = Fin 0
  /\ x1 (snd (basis_vectors self)) = Fin (Rtrigo_def.cos (phi self))
  /\ 0 < Rtrigo_def.cos (phi self).
Proof.
  intros Hv. rewrite (basis_vectors_valid self Hv).
  split; [reflexivity | split; [reflexivity | ]].
  apply cos_phi_pos, valid_regular, Hv.
Qed.

Lemma camera_never_inverted_witness :
  valid_state top_state
  /\ x1 (snd (fst (basis_vectors top_state))) = Fin 0
  /\ x1 (snd (basis_vectors top_state)) = Fin (Rtrigo_def.cos (phi top_state))
  /\ 0 < Rtrigo_def.cos (phi top_state).
Proof.
  split; [exact top_state_valid | ].
  exact (camera_never_inverted top_state top_state_valid).
Defined.

(** X11: in every valid state the frame has one handedness:
    [cross(right, up)] is [forward] and [cross(up, forward)] is [right]
    (as [cross(forward, right)] is [up] by construction), so the image is
    never mirrored. *)
Theorem frame_handedness (self : Camera) :
  valid_state self ->
  cross (snd (fst (basis_vectors self))) (snd (basis_vectors self))
    = fst (fst (basis_vectors self))
  /\ cross (snd (basis_vectors self)) (fst (fst (basis_vectors self)))
    = snd (fst (basis_vectors self)).
Proof.
  intros Hv. rewrite (basis_vectors_valid self Hv). cbn [fst snd].
  rewrite !cross_of_reals.
  assert (Ht := circle_theta self). assert (Hp := circle_phi self).
  unfold RV.cross, forward_exact, right_exact, up_exact.
  set (cp := Rtrigo_def.cos (phi self)) in *.
  set (sp := Rtrigo_def.sin (phi self)) in *.
  set (ct := Rtrigo_def.cos (theta self)) in *.
  set (st := Rtrigo_def.sin (theta self)) in *.
  split; f_equal; apply vec_ext; try ring.
  - replace (ct * - (sp * ct) - - st * - (sp * st))
      with (- (sp * (st * st + ct * ct))) by ring.
    rewrite Ht. ring.
  - replace (cp * - (cp * st) - - (sp * st) * - sp)
      with (- (st * (sp * sp + cp * cp))) by ring.
    rewrite Hp. ring.
  - replace (- (sp * ct) * - sp - cp * - (cp * ct))
      with (ct * (sp * sp + cp * cp)) by ring.
    rewrite Hp. ring.
Qed.

Lemma frame_handedness_witness :
  valid_state init
  /\ cross (snd (fst (basis_vectors init))) (snd (basis_vectors init))
     = fst (fst (basis_vectors init)).
Proof.
  split; [exact (reachable_valid []) | ].
  exact (proj1 (frame_handedness init (reachable_valid []))).
Defined.

(** X12: the camera looks at the origin: in every state with a positive
    radius, moving from [position] by [radius] along [forward] arrives at
    [(0, 0, 0)], at the poles too. *)
Theorem camera_looks_at_origin (self : Camera) :
  0 < radius self ->
  vadd (position self) (vscale (Fin (radius self)) (fst (fst (basis_vectors self))))
  = of_reals (0, 0, 0).
Proof.
  intros Hr. rewrite basis_vectors_unfold. cbn [fst].
  rewrite (forward_regular self Hr), position_exact.
  rewrite vscale_of_reals, vadd_of_reals. f_equal.
  unfold RV.add, RV.scale, forward_exact. apply vec_ext; ring.
Qed.

Lemma camera_looks_at_origin_witness :
  0 < radius init
  /\ vadd (position init) (vscale (Fin (radius init)) (fst (fst (basis_vectors init))))
     = of_reals (0, 0, 0).
Proof.
  assert (H : 0 < radius init) by (cbn [radius init]; lra).
  split; [exact H | exact (camera_looks_at_origin init H)].
Defined.

(** X13: [theta] is never normalised and need not be: [position],
    [basis_vectors] and [ray_direction] are the same for [theta] and for
    [theta] plus any number of full turns. *)
Theorem full_turns_change_nothing (self : Camera) (k : nat) :
  position (set_theta self (theta self + 2 * INR k * PI)) = position self
  /\ basis_vectors (set_theta self (theta self + 2 * INR k * PI))
     = basis_vectors self
  /\ forall px py img_w img_h,
       ray_direction (set_theta self (theta self + 2 * INR k * PI)) px py img_w img_h
       = ray_direction self px py img_w img_h.
Proof.
  assert (Hpos : position (set_theta self (theta self + 2 * INR k * PI))
                 = position self).
  { unfold position, NP.cos, NP.sin. cbn [radius theta phi set_theta].
    rewrite cos_period, sin_period. reflexivity. }
  assert (Hb : basis_vectors (set_theta self (theta self + 2 * INR k * PI))
               = basis_vectors self)
    by (unfold basis_vectors; rewrite Hpos; reflexivity).
  split; [exact Hpos | split; [exact Hb | ]].
  intros px py img_w img_h. unfold ray_direction. rewrite Hb. reflexivity.
Qed.

(** ** Rays in the camera frame *)

Lemma dot_scale_l (s : R) (v w : RV.vec) :
  RV.dot (RV.scale s v) w = s * RV.dot v w.
Proof.
  destruct v as [[a b] c], w as [[d e] f]. unfold RV.dot, RV.scale. ring.
Qed.

Lemma dir_exact_components (self : Camera) (x y : R) :
  RV.dot (dir_exact self x y) (right_exact self) = x
  /\ RV.dot (dir_exact self x y) (up_exact self) = y
  /\ RV.dot (dir_exact self x y) (forward_exact self) = 1.
Proof.
  generalize (forward_right_exact self) (right_up_exact self) (forward_up_exact self)
             (forward_exact_sq self) (right_exact_sq self) (up_exact_sq self).
  unfold dir_exact.
  destruct (forward_exact self) as [[f0 f1] f2].
  destruct (right_exact self) as [[r0 r1] r2].
  destruct (up_exact self) as [[u0 u1] u2].
  unfold RV.dot, RV.add, RV.scale. intros Hfr Hru Hfu Hff Hrr Huu.
  split; [ | split].
  - replace ((x * r0 + y * u0 + 1 * f0) * r0 + (x * r1 + y * u1 + 1 * f1) * r1
             + (x * r2 + y * u2 + 1 * f2) * r2)
      with (x * (r0 * r0 + r1 * r1 + r2 * r2) + y * (r0 * u0 + r1 * u1 + r2 * u2)
            + (f0 * r0 + f1 * r1 + f2 * r2)) by ring.
    rewrite Hrr, Hru, Hfr. ring.
  - replace ((x * r0 + y * u0 + 1 * f0) * u0 + (x * r1 + y * u1 + 1 * f1) * u1
             + (x * r2 + y * u2 + 1 * f2) * u2)
      with (x * (r0 * u0 + r1 * u1 + r2 * u2) + y * (u0 * u0 + u1 * u1 + u2 * u2)
            + (f0 * u0 + f1 * u1 + f2 * u2)) by ring.
    rewrite Hru, Huu, Hfu. ring.
  - replace ((x * r0 + y * u0 + 1 * f0) * f0 + (x * r1 + y * u1 + 1 * f1) * f1
             + (x * r2 + y * u2 + 1 * f2) * f2)
      with (x * (f0 * r0 + f1 * r1 + f2 * r2) + y * (f0 * u0 + f1 * u1 + f2 * u2)
            + (f0 * f0 + f1 * f1 + f2 * f2)) by ring.
    rewrite Hfr, Hfu, Hff. ring.
Qed.

Lemma normalized_dir_components (self : Camera) (x y : R) :
  RV.dot (RV.normalize (dir_exact self x y)) (right_exact self)
    = x / R_sqrt.sqrt (x * x + y * y + 1)
  /\ RV.dot (RV.normalize (dir_exact self x y)) (up_exact self)
    = y / R_sqrt.sqrt (x * x + y * y + 1)
  /\ RV.dot (RV.normalize (dir_exact self x y)) (forward_exact self)
    = 1 / R_sqrt.sqrt (x * x + y * y + 1).
Proof.
  destruct (dir_exact_components self x y) as [Hr [Hu Hf]].
  unfold RV.normalize. rewrite !dot_scale_l, Hr, Hu, Hf.
  unfold RV.norm. rewrite dir_exact_sq. unfold Rdiv.
  repeat split; ring.
Qed.

Lemma offsets_norm_pos (x y : R) : 0 < R_sqrt.sqrt (x * x + y * y + 1).
Proof. apply sqrt_lt_R0. nra. Qed.

(** The ray of a valid state in closed form. *)
Lemma ray_direction_valid (self : Camera) (px py : R) (img_w img_h : Z) :
  valid_state self -> (0 < img_w)%Z -> (0 < img_h)%Z ->
  ray_direction self px py img_w img_h =
  Ok (of_reals
        (RV.normalize
           (dir_exact self
              ((((px + 0.5) / IZR img_w) * 2 - 1) * (IZR img_w / IZR img_h)
               * Rtrigo1.tan (fov self / 2))
              ((1 - ((py + 0.5) / IZR img_h) * 2) * Rtrigo1.tan (fov self / 2))))).
Proof.
  intros Hv Hw Hh.
  rewrite ray_direction_regular by (try apply valid_regular; try assumption; lia).
  rewrite spec_ray_direction_dir. reflexivity.
Qed.

(** X14: in every valid state and for positive image sizes, the ray through
    a pixel has, along [right], [up] and [forward], the components
    [x_cam], [y_cam] and [1] divided by [sqrt(x_cam^2 + y_cam^2 + 1)]; in
    particular its component along [forward] is positive: no ray points
    behind the camera. *)
Theorem ray_components (self : Camera) (px py : R) (img_w img_h : Z) :
  valid_state self -> (0 < img_w)%Z -> (0 < img_h)%Z ->
  exists (v : array3) (x y : R),
    camera_offsets self px py img_w img_h = (Fin x, Fin y)
    /\ ray_direction self px py img_w img_h = Ok v
    /\ dot v (snd (fst (basis_vectors self))) = Fin (x / R_sqrt.sqrt (x * x + y * y + 1))
    /\ dot v (snd (basis_vectors self)) = Fin (y / R_sqrt.sqrt (x * x + y * y + 1))
    /\ dot v (fst (fst (basis_vectors self))) = Fin (1 / R_sqrt.sqrt (x * x + y * y + 1))
    /\ 0 < 1 / R_sqrt.sqrt (x * x + y * y + 1).
Proof.
  intros Hv Hw Hh. eexists. eexists. eexists.
  split; [apply camera_offsets_finite | ].
  split; [apply (ray_direction_valid self px py img_w img_h Hv Hw Hh) | ].
  rewrite (basis_vectors_valid self Hv). cbn [fst snd].
  rewrite !dot_of_reals.
  destruct (normalized_dir_components self
              ((((px + 0.5) / IZR img_w) * 2 - 1) * (IZR img_w / IZR img_h)
               * Rtrigo1.tan (fov self / 2))
              ((1 - ((py + 0.5) / IZR img_h) * 2) * Rtrigo1.tan (fov self / 2)))
    as [Hr [Hu Hf]].
  rewrite Hr, Hu, Hf. repeat split.
  apply Rdiv_lt_0_compat; [lra | apply offsets_norm_pos].
Qed.

Lemma ray_components_witness :
  valid_state init /\ (0 < 4)%Z /\ (0 < 3)%Z
  /\ exists (v : array3) (x y : R),
       camera_offsets init 0 0 4 3 = (Fin x, Fin y)
       /\ ray_direction init 0 0 4 3 = Ok v
       /\ dot v (snd (fst (basis_vectors init))) = Fin (x / R_sqrt.sqrt (x * x + y * y + 1))
       /\ dot v (snd (basis_vectors init)) = Fin (y / R_sqrt.sqrt (x * x + y * y + 1))
       /\ dot v (fst (fst (basis_vectors init))) = Fin (1 / R_sqrt.sqrt (x * x + y * y + 1))
       /\ 0 < 1 / R_sqrt.sqrt (x * x + y * y + 1).
Proof.
  split; [exact (reachable_valid []) | split; [reflexivity | split; [reflexivity | ]]].
  exact (ray_components init 0 0 4 3 (reachable_valid []) eq_refl eq_refl).
Defined.

Lemma sqrt_one_plus_tan_sq (a : R) :
  0 < Rtrigo_def.cos a ->
  R_sqrt.sqrt (0 * 0 + Rtrigo1.tan a * Rtrigo1.tan a + 1) = / Rtrigo_def.cos a.
Proof.
  intros Hc. assert (Hs := sin2_cos2 a). unfold Rsqr in Hs.
  replace (0 * 0 + Rtrigo1.tan a * Rtrigo1.tan a + 1)
    with (Rsqr (/ Rtrigo_def.cos a)).
  - apply sqrt_Rsqr. left. apply Rinv_0_lt_compat, Hc.
  - unfold Rsqr, Rtrigo1.tan.
    replace (0 * 0 + Rtrigo_def.sin a / Rtrigo_def.cos a * (Rtrigo_def.sin a / Rtrigo_def.cos a) + 1)
      with ((Rtrigo_def.sin a * Rtrigo_def.sin a + Rtrigo_def.cos a * Rtrigo_def.cos a)
            * (/ Rtrigo_def.cos a * / Rtrigo_def.cos a)) by (field; lra).
    rewrite Hs. ring.
Qed.

(** X15: [fov] is the vertical field of view.  In every valid state with
    [0 < fov < pi], the ray through the middle of the top edge of the image
    ([px = (img_w - 1)/2], [py = -0.5]) has no component along [right] and
    makes the angle [fov/2] with [forward]: its components along [forward]
    and [up] are [cos(fov/2)] and [sin(fov/2)]. *)
Theorem top_edge_at_half_fov (self : Camera) (img_w img_h : Z) :
  valid_state self -> 0 < fov self < PI -> (0 < img_w)%Z -> (0 < img_h)%Z ->
  exists v,
    ray_direction self ((IZR img_w - 1) / 2) (- 0.5) img_w img_h = Ok v
    /\ dot v (snd (fst (basis_vectors self))) = Fin 0
    /\ dot v (snd (basis_vectors self)) = Fin (Rtrigo_def.sin (fov self / 2))
    /\ dot v (fst (fst (basis_vectors self))) = Fin (Rtrigo_def.cos (fov self / 2)).
Proof.
  intros Hv Hfov Hw Hh. eexists.
  split; [apply (ray_direction_valid self _ _ img_w img_h Hv Hw Hh) | ].
  assert (Hc : 0 < Rtrigo_def.cos (fov self / 2)) by (apply cos_gt_0; lra).
  apply IZR_lt in Hw, Hh.
  replace ((IZR img_w - 1) / 2 + 0.5) with (IZR img_w / 2) by lra.
  replace (- 0.5 + 0.5) with 0 by lra.
  replace ((IZR img_w / 2 / IZR img_w * 2 - 1) * (IZR img_w / IZR img_h)
           * Rtrigo1.tan (fov self / 2)) with 0 by (field; lra).
  replace ((1 - 0 / IZR img_h * 2) * Rtrigo1.tan (fov self / 2))
    with (Rtrigo1.tan (fov self / 2)) by (field; lra).
  rewrite (basis_vectors_valid self Hv). cbn [fst snd]. rewrite !dot_of_reals.
  destruct (normalized_dir_components self 0 (Rtrigo1.tan (fov self / 2)))
    as [Hr [Hu Hf]].
  rewrite Hr, Hu, Hf, (sqrt_one_plus_tan_sq _ Hc).
  repeat split; f_equal; unfold Rtrigo1.tan; field; lra.
Qed.

Lemma top_edge_at_half_fov_witness :
  valid_state init /\ 0 < fov init < PI /\ (0 < 4)%Z /\ (0 < 3)%Z
  /\ exists v,
       ray_direction init ((IZR 4 - 1) / 2) (- 0.5) 4 3 = Ok v
       /\ dot v (snd (fst (basis_vectors init))) = Fin 0
       /\ dot v (snd (basis_vectors init)) = Fin (Rtrigo_def.sin (fov init / 2))
       /\ dot v (fst (fst (basis_vectors init))) = Fin (Rtrigo_def.cos (fov init / 2)).
Proof.
  assert (Hf : 0 < fov init < PI).
  { cbn [fov init]. unfold radians. generalize np_pi_pos np_pi_lt_PI. lra. }
  split; [exact (reachable_valid []) | split; [exact Hf | ]].
  split; [reflexivity | split; [reflexivity | ]].
  exact (top_edge_at_half_fov init 4 3 (reachable_valid []) Hf eq_refl eq_refl).
Defined.

(** X16: the image is symmetric about its vertical centre line.  In every
    valid state the rays through [px] and through its mirror pixel
    [img_w - 1 - px] of the same row have opposite components along
    [right] and the same components along [up] and [forward]. *)
Theorem mirror_pixels_mirror_rays
  (self : Camera) (px py : R) (img_w img_h : Z) :
  valid_state self -> (0 < img_w)%Z -> (0 < img_h)%Z ->
  exists v v',
    ray_direction self px py img_w img_h = Ok v
    /\ ray_direction self (IZR img_w - 1 - px) py img_w img_h = Ok v'
    /\ dot v' (snd (fst (basis_vectors self)))
       = neg (dot v (snd (fst (basis_vectors self))))
    /\ dot v' (snd (basis_vectors self)) = dot v (snd (basis_vectors self))
    /\ dot v' (fst (fst (basis_vectors self))) = dot v (fst (fst (basis_vectors self))).
Proof.
  intros Hv Hw Hh. eexists. eexists.
  split; [apply (ray_direction_valid self px py img_w img_h Hv Hw Hh) | ].
  split; [apply (ray_direction_valid self _ py img_w img_h Hv Hw Hh) | ].
  apply IZR_lt in Hw, Hh.
  set (y := (1 - (py + 0.5) / IZR img_h * 2) * Rtrigo1.tan (fov self / 2)).
  set (x := ((px + 0.5) / IZR img_w * 2 - 1) * (IZR img_w / IZR img_h)
            * Rtrigo1.tan (fov self / 2)).
  replace (IZR img_w - 1 - px + 0.5) with (IZR img_w - (px + 0.5)) by lra.
  replace (((IZR img_w - (px + 0.5)) / IZR img_w * 2 - 1) * (IZR img_w / IZR img_h)
           * Rtrigo1.tan (fov self / 2)) with (- x) by (unfold x; field; lra).
  rewrite (basis_vectors_valid self Hv). cbn [fst snd]. rewrite !dot_of_reals.
  destruct (normalized_dir_components self x y) as [Hr [Hu Hf]].
  destruct (normalized_dir_components self (- x) y) as [Hr' [Hu' Hf']].
  rewrite Hr, Hu, Hf, Hr', Hu', Hf'. cbn [neg].
  replace (- x * - x) with (x * x) by ring.
  repeat split. f_equal. unfold Rdiv. ring.
Qed.

Lemma mirror_pixels_mirror_rays_witness :
  valid_state init /\ (0 < 4)%Z /\ (0 < 3)%Z
  /\ exists v v',
       ray_direction init 0 1 4 3 = Ok v
       /\ ray_direction init (IZR 4 - 1 - 0) 1 4 3 = Ok v'
       /\ dot v' (snd (fst (basis_vectors init)))
          = neg (dot v (snd (fst (basis_vectors init))))
       /\ dot v' (snd (basis_vectors init)) = dot v (snd (basis_vectors init))
       /\ dot v' (fst (fst (basis_vectors init))) = dot v (fst (fst (basis_vectors init))).
Proof.
  split; [exact (reachable_valid []) | split; [reflexivity | split; [reflexivity | ]]].
  exact (mirror_pixels_mirror_rays init 0 1 4 3 (reachable_valid []) eq_refl eq_refl).
Defined.

(** ** A click *)

(** X17: a click without motion is invisible: on a released camera, a press
    of the primary button followed by its release, with only [update] and
    queries in between, returns the camera to the very state it was in; in
    particular the flag is not set. *)
Theorem click_changes_nothing (self : Camera) (ops : list op) :
  dragging self = false -> only_reads ops = true ->
  run self (HandleEvent (button_down 1) :: ops ++ [HandleEvent (button_up 1)]) = self.
Proof.
  intros Hd Hops. cbn [run fold_left step handle_event button_down type button].
  change (fold_left step (ops ++ [HandleEvent (button_up 1)]) (set_dragging self true))
    with (run (set_dragging self true) (ops ++ [HandleEvent (button_up 1)])).
  assert (Hrun : forall c, run c ops = c).
  { induction ops as [ | o ops IH]; intros c; [reflexivity | ].
    cbn [only_reads forallb] in Hops. apply andb_true_iff in Hops. destruct Hops as [Ho Hops].
    cbn [run fold_left]. fold (run (step c o) ops). rewrite (IH Hops).
    destruct o; try discriminate Ho; reflexivity. }
  unfold run in *. rewrite fold_left_app. fold (run (set_dragging self true) ops).
  unfold run in Hrun |- *. rewrite Hrun.
  destruct self as [r t p f s d dirty]. cbn in Hd. subst d. reflexivity.
Qed.

Lemma click_changes_nothing_witness :
  dragging (snd (consume_dirty init)) = false
  /\ run (snd (consume_dirty init))
         (HandleEvent (button_down 1) :: [Update 1; Position]
          ++ [HandleEvent (button_up 1)])
     = snd (consume_dirty init).
Proof.
  split; [reflexivity | ].
  exact (click_changes_nothing (snd (consume_dirty init)) [Update 1; Position]
           eq_refl eq_refl).
Defined.
